(** * Qomo pricing engine: [src/services/pricingEngine.ts]

    A shallow embedding of the four engine operations ([initDrop],
    [applyView], [releaseLock], [applyPurchase]) and the proofs of their
    contract.

    Modelling choices, all visible in the definitions below:
    - a JavaScript [number] holding money is an exact rational ([Q]); the
      arithmetic of the source is kept as written, including the
      [Number.EPSILON] nudge inside [roundMoney], but it is carried out
      without binary rounding error.  Equality of amounts is [==].  The
      arithmetic that decides the concrete scenarios is replayed on IEEE 754
      binary64 numbers in [Binary64], where it gives the same amounts;
    - timestamps and counters are integers ([Z], milliseconds since the epoch);
    - [string | null] and [number | null] are [option]s, and the truthiness
      tests of the source ([x && ...]) are written out: [null], the empty
      string and [0] are falsy;
    - the only ambient input of the source, [Date.now()], is the explicit
      argument [now] of the two operations that read the clock.

    Around the engine the development also covers its callers: the in-memory
    request surface ([getStatus], [postView], [postCancel], [postBuy],
    [resetDb]) over two JavaScript [Map]s, the scripted [runSimulation], the
    countdown expression of the product page, and the citation filter of
    [analyzePriceComparison].  The catalogue [config/products] is not part
    of the sources and is a parameter ([productsData]). *)

From Stdlib Require Import ZArith QArith Qround Qminmax Lqa Lia.
From Stdlib Require Import Bool String List Floats.
From Stdlib Require DecimalString.
Import ListNotations.

Set Warnings "-inexact-float".

Local Open Scope string_scope.
Local Open Scope Z_scope.
Local Open Scope Q_scope.

(** ** JavaScript primitives used by the engine *)

Module JS.

(** [Number.EPSILON], 2^-52. *)
Definition EPSILON : Q := 1 # 4503599627370496.

(** [Math.round]: the nearest integer, ties towards +infinity. *)
Definition Math_round (x : Q) : Z := Qfloor (x + (1 # 2)).

(** [a < b] on numbers. *)
Definition ltb (a b : Q) : bool := negb (Qle_bool b a).

(** Truthiness of a [string | null]. *)
Definition truthyString (s : option string) : bool :=
  match s with
  | Some s => negb (String.eqb s "")
  | None => false
  end.

(** Truthiness of a [number | null] holding a timestamp. *)
Definition truthyNumber (n : option Z) : bool :=
  match n with
  | Some n => negb (Z.eqb n 0)
  | None => false
  end.

(** [ToNumber] on a [number | null]: [null] converts to [0]. *)
Definition toNumber (n : option Z) : Z :=
  match n with
  | Some n => n
  | None => 0%Z
  end.

(** [a === s] for [a : string | null] and [s : string]. *)
Definition strictEqNullable (a : option string) (s : string) : bool :=
  match a with
  | Some a => String.eqb a s
  | None => false
  end.

(** [xs.includes(s)]. *)
Definition includes (xs : list string) (s : string) : bool :=
  existsb (String.eqb s) xs.

(** [xs.indexOf(s)]: the first index holding [s], [-1] when absent. *)
Fixpoint indexOfFrom (i : Z) (xs : list string) (s : string) : Z :=
  match xs with
  | [] => (-1)%Z
  | x :: xs' => if String.eqb x s then i else indexOfFrom (i + 1)%Z xs' s
  end.

Definition indexOf (xs : list string) (s : string) : Z := indexOfFrom 0%Z xs s.

(** [xs.push(s)] on a fresh copy. *)
Definition push (xs : list string) (s : string) : list string := xs ++ [s].

End JS.

(** ** Types *)

(** Field names are those of the source, except where two interfaces share
    one: [productId] of [DropConfig] is [cfg_productId], and the fields of
    [PurchaseResult] carry the prefix [p_]. *)

Record DropConfig := {
  cfg_productId : string;
  name : string;
  basePrice : Q;
  viewingFee : Q;
  priceDropShare : Q;
  platformShare : Q;
  supplierShareOfPlatform : Q;
  qomoShareOfPlatform : Q;
  minPrice : Q
}.

Record DropState := {
  productId : string;
  currentPrice : Q;
  isSold : bool;
  totalViews : Z;
  buyerId : option string;
  soldPrice : option Q;
  activeViewerId : option string;
  activeViewExpiresAt : option Z;
  queue : list string;
  totalPlatformRevenue : Q;
  totalSupplierPlatformRevenue : Q;
  totalQomoRevenue : Q
}.

Inductive Status := LOCKED | QUEUED | SOLD | ERROR.

Record ViewEventResult := {
  success : bool;
  status : Status;
  expiresAt : option Z;
  queuePosition : option Z;
  dropAmount : Q;
  newPrice : Q;
  feeCharged : Q;
  state : DropState;
  error : option string
}.

Record PurchaseResult := {
  p_success : bool;
  p_soldPrice : Q;
  p_totalSupplierRevenue : Q;
  p_totalQomoRevenue : Q;
  p_state : DropState;
  p_error : option string
}.

(** ** Helpers *)

(** [Math.round((amount + Number.EPSILON) * 100) / 100]. *)
Definition roundMoney (amount : Q) : Q :=
  inject_Z (JS.Math_round ((amount + JS.EPSILON) * 100)) / 100.

(** ** Core functions *)

Definition initDrop (config : DropConfig) : DropState :=
  {| productId := cfg_productId config;
     currentPrice := roundMoney (basePrice config);
     isSold := false;
     totalViews := 0;
     buyerId := None;
     soldPrice := None;
     activeViewerId := None;
     activeViewExpiresAt := None;
     queue := [];
     totalPlatformRevenue := 0;
     totalSupplierPlatformRevenue := 0;
     totalQomoRevenue := 0 |}.

Definition LOCK_DURATION : Z := 30000.

(** [state.activeViewerId && state.activeViewExpiresAt &&
    state.activeViewExpiresAt > now].  The chain tests truthiness: a holder
    recorded under the empty id, or an expiry of [0], does not count as a
    lock. *)
Definition isLocked (st : DropState) (now : Z) : bool :=
  JS.truthyString (activeViewerId st)
  && JS.truthyNumber (activeViewExpiresAt st)
  && (now <? JS.toNumber (activeViewExpiresAt st))%Z.

(** [{ ...state, queue: newQueue }]. *)
Definition withQueue (st : DropState) (newQueue : list string) : DropState :=
  {| productId := productId st;
     currentPrice := currentPrice st;
     isSold := isSold st;
     totalViews := totalViews st;
     buyerId := buyerId st;
     soldPrice := soldPrice st;
     activeViewerId := activeViewerId st;
     activeViewExpiresAt := activeViewExpiresAt st;
     queue := newQueue;
     totalPlatformRevenue := totalPlatformRevenue st;
     totalSupplierPlatformRevenue := totalSupplierPlatformRevenue st;
     totalQomoRevenue := totalQomoRevenue st |}.

(** [{ ...state, activeViewerId: null, activeViewExpiresAt: null }]. *)
Definition clearLock (st : DropState) : DropState :=
  {| productId := productId st;
     currentPrice := currentPrice st;
     isSold := isSold st;
     totalViews := totalViews st;
     buyerId := buyerId st;
     soldPrice := soldPrice st;
     activeViewerId := None;
     activeViewExpiresAt := None;
     queue := queue st;
     totalPlatformRevenue := totalPlatformRevenue st;
     totalSupplierPlatformRevenue := totalSupplierPlatformRevenue st;
     totalQomoRevenue := totalQomoRevenue st |}.

(** The copy of the queue with [viewerId] pushed when it is not included. *)
Definition enqueue (q : list string) (viewerId : string) : list string :=
  if JS.includes q viewerId then q else JS.push q viewerId.

(** The [QUEUED] answer shared by the two waiting branches. *)
Definition queuedResult (st newState : DropState) (newQueue : list string)
    (viewerId : string) : ViewEventResult :=
  {| success := false;
     status := QUEUED;
     expiresAt := None;
     queuePosition := Some (JS.indexOf newQueue viewerId + 1)%Z;
     dropAmount := 0;
     newPrice := currentPrice st;
     feeCharged := 0;
     state := newState;
     error := None |}.

(** The four amounts computed at the head of the grant branch. *)
Definition priceDropAmount (config : DropConfig) : Q :=
  roundMoney (viewingFee config * priceDropShare config).

Definition platformRevenue (config : DropConfig) : Q :=
  roundMoney (viewingFee config * platformShare config).

Definition supplierShare (config : DropConfig) : Q :=
  roundMoney (platformRevenue config * supplierShareOfPlatform config).

Definition qomoShare (config : DropConfig) : Q :=
  roundMoney (platformRevenue config * qomoShareOfPlatform config).

(** Step 3 of the grant branch: subtract, clamp at [minPrice], round. *)
Definition nextPrice (st : DropState) (config : DropConfig) : Q :=
  let nextPrice := currentPrice st - priceDropAmount config in
  let nextPrice := if JS.ltb nextPrice (minPrice config)
                   then minPrice config else nextPrice in
  roundMoney nextPrice.

(** The grant branch ([--- GRANT LOCK & APPLY DROP ---]). *)
Definition grantLock (st : DropState) (config : DropConfig)
    (viewerId : string) (now : Z) : ViewEventResult :=
  let nextPrice := nextPrice st config in
  let effectiveDrop := roundMoney (currentPrice st - nextPrice) in
  let newQueue := filter (fun id => negb (String.eqb id viewerId)) (queue st) in
  let newState :=
    {| productId := productId st;
       currentPrice := nextPrice;
       isSold := isSold st;
       totalViews := (totalViews st + 1)%Z;
       buyerId := buyerId st;
       soldPrice := soldPrice st;
       activeViewerId := Some viewerId;
       activeViewExpiresAt := Some (now + LOCK_DURATION)%Z;
       queue := newQueue;
       totalPlatformRevenue :=
         roundMoney (totalPlatformRevenue st + platformRevenue config);
       totalSupplierPlatformRevenue :=
         roundMoney (totalSupplierPlatformRevenue st + supplierShare config);
       totalQomoRevenue :=
         roundMoney (totalQomoRevenue st + qomoShare config) |} in
  {| success := true;
     status := LOCKED;
     expiresAt := activeViewExpiresAt newState;
     queuePosition := None;
     dropAmount := effectiveDrop;
     newPrice := currentPrice newState;
     feeCharged := viewingFee config;
     state := newState;
     error := None |}.

(** [applyView(state, config, viewerId)], reading the clock as [now]. *)
Definition applyView (st : DropState) (config : DropConfig)
    (viewerId : string) (now : Z) : ViewEventResult :=
  if isSold st then
    {| success := false;
       status := SOLD;
       expiresAt := None;
       queuePosition := None;
       dropAmount := 0;
       newPrice := currentPrice st;
       feeCharged := 0;
       state := st;
       error := Some "Product is already sold." |}
  else if isLocked st now then
    if JS.strictEqNullable (activeViewerId st) viewerId then
      {| success := true;
         status := LOCKED;
         expiresAt := activeViewExpiresAt st;
         queuePosition := None;
         dropAmount := 0;
         newPrice := currentPrice st;
         feeCharged := 0;
         state := st;
         error := None |}
    else
      let newQueue := enqueue (queue st) viewerId in
      queuedResult st (withQueue st newQueue) newQueue viewerId
  else
    match queue st with
    | head :: _ =>
        if negb (String.eqb head viewerId) then
          let newQueue := enqueue (queue st) viewerId in
          queuedResult st (withQueue (clearLock st) newQueue) newQueue viewerId
        else grantLock st config viewerId now
    | [] => grantLock st config viewerId now
    end.

(** [releaseLock(state, viewerId)]. *)
Definition releaseLock (st : DropState) (viewerId : string) : DropState :=
  if JS.strictEqNullable (activeViewerId st) viewerId then clearLock st else st.

(** The guard of [applyPurchase]:
    [state.activeViewerId && (state.activeViewerId !== buyerId &&
     state.activeViewExpiresAt && state.activeViewExpiresAt > now)]. *)
Definition lockedByOther (st : DropState) (buyer : string) (now : Z) : bool :=
  JS.truthyString (activeViewerId st)
  && (negb (JS.strictEqNullable (activeViewerId st) buyer)
      && JS.truthyNumber (activeViewExpiresAt st)
      && (now <? JS.toNumber (activeViewExpiresAt st))%Z).

(** [applyPurchase(state, config, buyerId)], reading the clock as [now]. *)
Definition applyPurchase (st : DropState) (config : DropConfig)
    (buyer : string) (now : Z) : PurchaseResult :=
  if isSold st then
    {| p_success := false;
       p_soldPrice := 0;
       p_totalSupplierRevenue := 0;
       p_totalQomoRevenue := 0;
       p_state := st;
       p_error := Some "Product is already sold." |}
  else if lockedByOther st buyer now then
    {| p_success := false;
       p_soldPrice := 0;
       p_totalSupplierRevenue := 0;
       p_totalQomoRevenue := 0;
       p_state := st;
       p_error := Some "Product is currently locked by another user." |}
  else
    let soldPrice_ := currentPrice st in
    let totalSupplierRevenue_ :=
      roundMoney (soldPrice_ + totalSupplierPlatformRevenue st) in
    let totalQomoRevenue_ := totalQomoRevenue st in
    let newState :=
      {| productId := productId st;
         currentPrice := currentPrice st;
         isSold := true;
         totalViews := totalViews st;
         buyerId := Some buyer;
         soldPrice := Some soldPrice_;
         activeViewerId := None;
         activeViewExpiresAt := None;
         queue := [];
         totalPlatformRevenue := totalPlatformRevenue st;
         totalSupplierPlatformRevenue := totalSupplierPlatformRevenue st;
         totalQomoRevenue := totalQomoRevenue st |} in
    {| p_success := true;
       p_soldPrice := soldPrice_;
       p_totalSupplierRevenue := totalSupplierRevenue_;
       p_totalQomoRevenue := totalQomoRevenue_;
       p_state := newState;
       p_error := None |}.

(** ** Executions *)

(** One call of the request surface; the two clock-reading operations carry
    the instant they read. *)
Inductive Op :=
| View (viewerId : string) (now : Z)
| Release (viewerId : string)
| Purchase (buyer : string) (now : Z).

Definition step (config : DropConfig) (st : DropState) (op : Op) : DropState :=
  match op with
  | View viewerId now => state (applyView st config viewerId now)
  | Release viewerId => releaseLock st viewerId
  | Purchase buyer now => p_state (applyPurchase st config buyer now)
  end.

Definition run (config : DropConfig) (st : DropState) (ops : list Op) : DropState :=
  fold_left (step config) ops st.

(** The states the engine can be in for a product configured by [config]. *)
Inductive reachable (config : DropConfig) : DropState -> Prop :=
| reach_init : reachable config (initDrop config)
| reach_step st op : reachable config st -> reachable config (step config st op).

(** ** The money arithmetic on binary64 numbers *)

(** [roundMoney] and step 3 of the grant branch once more, on the IEEE 754
    binary64 numbers a JavaScript engine computes with.  Decimal literals
    denote the nearest binary64 number, as they do in JavaScript. *)
Module Binary64.

Definition EPSILON : float := 0x1p-52%float.

Definition ofZ (z : Z) : float :=
  if (0 <=? z)%Z then PrimFloat.of_uint63 (Uint63.of_Z z)
  else PrimFloat.opp (PrimFloat.of_uint63 (Uint63.of_Z (- z))).

(** [Math.round], up to the sign of a zero result: a number with a
    non-negative exponent is an integer already, any other finite number is
    below 2^53 in magnitude and is rounded on its exact value. *)
Definition Math_round (x : float) : float :=
  match Prim2SF x with
  | S754_finite s m e =>
      if (0 <=? e)%Z then x
      else
        let q := (if s then Z.neg m else Z.pos m) # Pos.pow 2 (Z.to_pos (- e)) in
        ofZ (Qfloor (q + (1 # 2)))
  | _ => x
  end.

Definition roundMoney (amount : float) : float :=
  (Math_round ((amount + EPSILON) * 100) / 100)%float.

Definition nextPrice (currentPrice viewingFee priceDropShare minPrice : float)
    : float :=
  let priceDropAmount := roundMoney (viewingFee * priceDropShare)%float in
  let nextPrice := (currentPrice - priceDropAmount)%float in
  let nextPrice :=
    if (nextPrice <? minPrice)%float then minPrice else nextPrice in
  roundMoney nextPrice.

End Binary64.

(** ** Auxiliary notions used in the statements *)

(** An amount is a whole number of cents when rounding leaves it alone. *)
Definition wholeCents (x : Q) : Prop := roundMoney x == x.

(** Section 3 of the specification: once sold, the lock and the queue are
    cleared. *)
Definition soldCleared (st : DropState) : Prop :=
  isSold st = true ->
  activeViewerId st = None /\ activeViewExpiresAt st = None /\ queue st = [].

(** Section 3 of the specification: the queue holds no actor twice and
    never the actor recorded as the holder of the lock. *)
Definition queueDiscipline (st : DropState) : Prop :=
  NoDup (queue st)
  /\ forall holder, activeViewerId st = Some holder -> ~ In holder (queue st).


(** Re-polling by the holder at each instant of [instants], in order. *)
Definition repoll (actor : string) (instants : list Z) : list Op :=
  map (View actor) instants.


(** ** The example scenario of the specification *)

Definition exampleConfig : DropConfig :=
  {| cfg_productId := "iphone17";
     name := "iPhone 17 Pro";
     basePrice := 1100;
     viewingFee := 5;
     priceDropShare := 8 # 10;
     platformShare := 2 # 10;
     supplierShareOfPlatform := 25 # 100;
     qomoShareOfPlatform := 75 # 100;
     minPrice := 1000 |}.

(** The example with a base price a fraction of a cent under the floor. *)
Definition subCentBaseConfig : DropConfig :=
  {| cfg_productId := "iphone17";
     name := "iPhone 17 Pro";
     basePrice := 999996 # 1000;
     viewingFee := 5;
     priceDropShare := 8 # 10;
     platformShare := 2 # 10;
     supplierShareOfPlatform := 25 # 100;
     qomoShareOfPlatform := 75 # 100;
     minPrice := 1000 |}.

(** The example with the base price and the floor exchanged. *)
Definition belowFloorConfig : DropConfig :=
  {| cfg_productId := "iphone17";
     name := "iPhone 17 Pro";
     basePrice := 1000;
     viewingFee := 5;
     priceDropShare := 8 # 10;
     platformShare := 2 # 10;
     supplierShareOfPlatform := 25 # 100;
     qomoShareOfPlatform := 75 # 100;
     minPrice := 1100 |}.

(** The first grant of the example: [viewer_1] views at instant [1000]. *)
Definition lockedExample : DropState :=
  state (applyView (initDrop exampleConfig) exampleConfig "viewer_1" 1000).

(** [viewer_2] arrives while [viewer_1] holds the lock. *)
Definition queuedExample : DropState :=
  state (applyView lockedExample exampleConfig "viewer_2" 2000).

(** The example after [viewer_1] bought inside its lock window. *)
Definition soldExample : DropState :=
  p_state (applyPurchase lockedExample exampleConfig "viewer_1" 2000).




(** ** Notions used by the further properties of the engine *)

(** An operation issued by somebody other than [holder], at an instant (if
    it reads the clock) at which the lock recorded in [st] is unexpired. *)
Definition byOtherWithinLock (holder : string) (st : DropState) (op : Op) : Prop :=
  match op with
  | View viewerId now => viewerId <> holder /\ isLocked st now = true
  | Release viewerId => viewerId <> holder
  | Purchase buyer now => buyer <> holder /\ isLocked st now = true
  end.

(** The fees the viewers are charged along a run: the sum of [feeCharged]
    over the results of its [applyView] calls. *)
Fixpoint feesCharged (config : DropConfig) (st : DropState) (ops : list Op) : Q :=
  match ops with
  | [] => 0
  | op :: ops' =>
      (match op with
       | View viewerId now => feeCharged (applyView st config viewerId now)
       | _ => 0
       end)
      + feesCharged config (step config st op) ops'
  end.

(** ** The request surface ([services/api.ts]) *)

(** A JavaScript [Map<string, V>]: entries in insertion order, [set] on a
    key already present replaces its value in place. *)
Module JSMap.

Definition t (V : Type) : Type := list (string * V).

Fixpoint get {V : Type} (m : t V) (k : string) : option V :=
  match m with
  | [] => None
  | (k', v) :: m' => if String.eqb k' k then Some v else get m' k
  end.

Fixpoint set {V : Type} (m : t V) (k : string) (v : V) : t V :=
  match m with
  | [] => [(k, v)]
  | (k', v') :: m' =>
      if String.eqb k' k then (k', v) :: m' else (k', v') :: set m' k v
  end.

Definition keys {V : Type} (m : t V) : list string := map fst m.

End JSMap.

(** The two module-level maps of the API. *)
Record Store := {
  db : JSMap.t DropState;
  configs : JSMap.t DropConfig
}.

(** What a call does: return a value or throw [new Error(message)]. *)
Inductive Outcome (A : Type) : Type :=
| Returned (value : A)
| Thrown (message : string).

Arguments Returned {A} value.
Arguments Thrown {A} message.

(** [`Product ${productId} not found`]. *)
Definition notFound (productId : string) : string :=
  "Product " ++ productId ++ " not found".

(** The body of the loop that fills both maps when the module is loaded. *)
Definition loadProduct (s : Store) (config : DropConfig) : Store :=
  {| configs := JSMap.set (configs s) (cfg_productId config) config;
     db := JSMap.set (db s) (cfg_productId config) (initDrop config) |}.

(** The maps after the module is loaded; [productsData] stands for
    [Object.values] of the catalogue [config/products]. *)
Definition initStore (productsData : list DropConfig) : Store :=
  fold_left loadProduct productsData {| db := []; configs := [] |}.

(** [getStatus(productId)]; the copy [{ ...state }] is the same value. *)
Definition getStatus (s : Store) (productId : string) : Outcome DropState :=
  match JSMap.get (db s) productId with
  | None => Thrown (notFound productId)
  | Some state => Returned state
  end.

(** [postView(productId, viewerId)], with the outcome and the maps after
    the call. *)
Definition postView (s : Store) (productId viewerId : string) (now : Z)
    : Outcome ViewEventResult * Store :=
  match JSMap.get (db s) productId, JSMap.get (configs s) productId with
  | Some state_, Some config =>
      let result := applyView state_ config viewerId now in
      (Returned result,
       {| db := JSMap.set (db s) productId (state result);
          configs := configs s |})
  | _, _ => (Thrown (notFound productId), s)
  end.

(** [postCancel(productId, viewerId)]. *)
Definition postCancel (s : Store) (productId viewerId : string)
    : Outcome DropState * Store :=
  match JSMap.get (db s) productId with
  | None => (Thrown (notFound productId), s)
  | Some state =>
      let newState := releaseLock state viewerId in
      (Returned newState,
       {| db := JSMap.set (db s) productId newState; configs := configs s |})
  end.

(** [postBuy(productId, buyerId)]: the map is written on success only. *)
Definition postBuy (s : Store) (productId buyerId : string) (now : Z)
    : Outcome PurchaseResult * Store :=
  match JSMap.get (db s) productId, JSMap.get (configs s) productId with
  | Some state, Some config =>
      let result := applyPurchase state config buyerId now in
      (Returned result,
       if p_success result
       then {| db := JSMap.set (db s) productId (p_state result);
               configs := configs s |}
       else s)
  | _, _ => (Thrown (notFound productId), s)
  end.

(** [resetDb()]. *)
Definition resetDb (productsData : list DropConfig) (s : Store) : Store :=
  {| db := fold_left
             (fun d config => JSMap.set d (cfg_productId config) (initDrop config))
             productsData (db s);
     configs := configs s |}.

(** The calls a client can make, and the maps they leave behind. *)
Inductive Request :=
| GetStatus (productId : string)
| PostView (productId viewerId : string) (now : Z)
| PostCancel (productId viewerId : string)
| PostBuy (productId buyerId : string) (now : Z)
| ResetDb.

Definition serve (productsData : list DropConfig) (s : Store) (req : Request)
    : Store :=
  match req with
  | GetStatus _ => s
  | PostView productId viewerId now => snd (postView s productId viewerId now)
  | PostCancel productId viewerId => snd (postCancel s productId viewerId)
  | PostBuy productId buyerId now => snd (postBuy s productId buyerId now)
  | ResetDb => resetDb productsData s
  end.

(** The maps the API can hold after any sequence of calls. *)
Inductive served (productsData : list DropConfig) : Store -> Prop :=
| served_init : served productsData (initStore productsData)
| served_step s req :
    served productsData s -> served productsData (serve productsData s req).

(** The product a request addresses. *)
Definition target (req : Request) : option string :=
  match req with
  | GetStatus productId => Some productId
  | PostView productId _ _ => Some productId
  | PostCancel productId _ => Some productId
  | PostBuy productId _ _ => Some productId
  | ResetDb => None
  end.

(** Filling a map from the catalogue, as both loops over [productsData] do. *)
Definition loadAll {V : Type} (value : DropConfig -> V) (l : list DropConfig)
    (m : JSMap.t V) : JSMap.t V :=
  fold_left (fun d config => JSMap.set d (cfg_productId config) (value config)) l m.

(** The value the catalogue [l] leaves under the key [k]: that of its last
    entry with this id, else what was there before. *)
Definition latest {V : Type} (value : DropConfig -> V) (k : string)
    (l : list DropConfig) (before : option V) : option V :=
  fold_left
    (fun acc config =>
       if String.eqb (cfg_productId config) k then Some (value config) else acc)
    l before.

(** What every map the API can hold has in common with the initial one. *)
Definition storeInvariant (productsData : list DropConfig) (s : Store) : Prop :=
  configs s = configs (initStore productsData)
  /\ JSMap.keys (db s) = JSMap.keys (db (initStore productsData))
  /\ forall pid st,
       JSMap.get (db s) pid = Some st ->
       exists config,
         JSMap.get (configs s) pid = Some config /\ reachable config st.

(** A second product for the examples of the request surface. *)
Definition consoleConfig : DropConfig :=
  {| cfg_productId := "ps5slim";
     name := "PlayStation 5 Slim";
     basePrice := 485;
     viewingFee := 5;
     priceDropShare := 8 # 10;
     platformShare := 2 # 10;
     supplierShareOfPlatform := 25 # 100;
     qomoShareOfPlatform := 75 # 100;
     minPrice := 400 |}.

Definition exampleCatalogue : list DropConfig := [exampleConfig; consoleConfig].

(** The maps after [viewer_1] viewed the first product at instant [1000]. *)
Definition viewedStore : Store :=
  snd (postView (initStore exampleCatalogue) "iphone17" "viewer_1" 1000).

(** ** The scripted simulation ([runSimulation]) *)

(** One argument of a console call.  A template literal is kept as its text
    with the interpolated numbers left unformatted. *)
Inductive ConsoleArg :=
| Text (s : string)
| Amount (q : Q)
| Count (n : Z)
| Message (m : option string).

Inductive ConsoleLine :=
| ConsoleLog (args : list ConsoleArg)
| ConsoleError (args : list ConsoleArg).

(** [`viewer_${i}`] for a loop counter [i]. *)
Definition viewerName (i : nat) : string :=
  "viewer_" ++ DecimalString.NilEmpty.string_of_uint (Nat.to_uint i).

(** The body of [products.forEach]: what it prints, and the values it
    prints them from.  [clock n] is the instant the [n]-th clock reading of
    the body returns; the ten views take the readings 0 to 9 and the purchase
    the reading 10 (each of these calls reads the clock, no state of the
    loop being sold). *)
Record Simulated := {
  console : list ConsoleLine;
  afterViews : DropState;
  purchaseResult : PurchaseResult;
  finalState : DropState
}.

(** The loop of ten views. *)
Definition simulatedViews (config : DropConfig) (clock : nat -> Z) : DropState :=
  fold_left
    (fun st i => state (applyView st config (viewerName i) (clock (i - 1)%nat)))
    (seq 1 10) (initDrop config).

Definition simulateProduct (config : DropConfig) (clock : nat -> Z) : Simulated :=
  let state1 := simulatedViews config clock in
  let result := applyPurchase state1 config "buyer_WINNER" (clock 10%nat) in
  {| console :=
       [ConsoleLog [Text (String (Ascii.ascii_of_nat 10) ">>> SIMULATING PRODUCT: "
                          ++ name config ++ " (" ++ cfg_productId config ++ ")")];
        ConsoleLog [Text "BASE PRICE: $"; Amount (basePrice config)];
        ConsoleLog [Text "... Simulating 10 Views ..."];
        ConsoleLog [Text "STATUS AFTER 10 VIEWS:"];
        ConsoleLog [Text "- Final Price: $"; Amount (currentPrice state1)];
        ConsoleLog [Text "- Total Views: "; Count (totalViews state1)];
        ConsoleLog [Text "- Total Platform Revenue: $";
                    Amount (totalPlatformRevenue state1)];
        ConsoleLog [Text "- Supplier Share of Platform: $";
                    Amount (totalSupplierPlatformRevenue state1)];
        ConsoleLog [Text "- Qomo Share of Platform: $";
                    Amount (totalQomoRevenue state1)];
        ConsoleLog [Text "... Simulating Purchase ..."]]
       ++ (if p_success result then
             [ConsoleLog [Text "PURCHASE SUCCESSFUL:"];
              ConsoleLog [Text "- Buyer Paid: $"; Amount (p_soldPrice result)];
              ConsoleLog [Text "- Total Supplier Revenue (Price + Fee Share): $";
                          Amount (p_totalSupplierRevenue result)];
              ConsoleLog [Text "- Total Qomo Revenue (Fee Share): $";
                          Amount (p_totalQomoRevenue result)]]
           else
             [ConsoleError [Text "Purchase failed:"; Message (p_error result)]]);
     afterViews := state1;
     purchaseResult := result;
     finalState := p_state result |}.

(** The products in turn, each taking the next eleven clock readings. *)
Fixpoint simulateAll (products : list DropConfig) (clock : nat -> Z)
    : list ConsoleLine :=
  match products with
  | [] => []
  | config :: rest =>
      console (simulateProduct config clock)
      ++ simulateAll rest (fun n => clock (n + 11)%nat)
  end.

(** [runSimulation()], as the lines it writes to the console. *)
Definition runSimulation (productsData : list DropConfig) (clock : nat -> Z)
    : list ConsoleLine :=
  [ConsoleLog [Text "------------------------------------------------"];
   ConsoleLog [Text "STARTING QOMO PRICING SIMULATION"];
   ConsoleLog [Text "------------------------------------------------"]]
  ++ simulateAll productsData clock
  ++ [ConsoleLog [Text (String (Ascii.ascii_of_nat 10)
                          "------------------------------------------------")];
      ConsoleLog [Text "SIMULATION COMPLETE"];
      ConsoleLog [Text "------------------------------------------------"]].

(** The lines written with [console.error]. *)
Definition isError (line : ConsoleLine) : bool :=
  match line with
  | ConsoleError _ => true
  | ConsoleLog _ => false
  end.

(** Every product's eleven clock readings fall inside the lock window that
    its first view opens. *)
Definition fasterThanLock (products : list DropConfig) (clock : nat -> Z) : Prop :=
  forall j, (j < length products)%nat ->
    (clock (11 * j)%nat + LOCK_DURATION <> 0)%Z
    /\ forall n, (1 <= n <= 10)%nat ->
         (clock (11 * j + n)%nat < clock (11 * j)%nat + LOCK_DURATION)%Z.

(** A clock that advances by one millisecond per reading, from [t0]. *)
Definition tickingClock (t0 : Z) (n : nat) : Z := (t0 + Z.of_nat n)%Z.

(** ** Citations of the price analysis ([analyzePriceComparison]) *)

(** A cited source, [{ title, uri }]. *)
Record Source := {
  title : string;
  uri : string
}.

Module JSArray.

(** [a.findIndex(p)]: the first index whose element satisfies [p], else [-1]. *)
Fixpoint findIndexFrom {A : Type} (p : A -> bool) (i : Z) (a : list A) : Z :=
  match a with
  | [] => (-1)%Z
  | x :: a' => if p x then i else findIndexFrom p (i + 1)%Z a'
  end.

Definition findIndex {A : Type} (p : A -> bool) (a : list A) : Z :=
  findIndexFrom p 0%Z a.

(** [a.filter((v, i, a) => p(v, i, a))]: the callback sees each element, its
    index and the whole array. *)
Fixpoint filterFrom {A : Type} (p : A -> Z -> list A -> bool) (a : list A)
    (i : Z) (rest : list A) : list A :=
  match rest with
  | [] => []
  | v :: rest' =>
      if p v i a then v :: filterFrom p a (i + 1)%Z rest'
      else filterFrom p a (i + 1)%Z rest'
  end.

Definition filter {A : Type} (p : A -> Z -> list A -> bool) (a : list A) : list A :=
  filterFrom p a 0%Z a.

End JSArray.

(** The loop over the grounding chunks: a chunk contributes its [web]
    source when it has one; no chunk list, no sources. *)
Definition groundingSources (chunks : option (list (option Source))) : list Source :=
  match chunks with
  | None => []
  | Some chunks =>
      fold_left
        (fun sources chunk =>
           match chunk with
           | Some web =>
               (sources ++ [{| title := title web; uri := uri web |}])%list
           | None => sources
           end)
        chunks []
  end.

(** [sources.filter((v, i, a) => a.findIndex(t => t.uri === v.uri) === i)]. *)
Definition uniqueSources (sources : list Source) : list Source :=
  JSArray.filter
    (fun v i a => Z.eqb (JSArray.findIndex (fun t => String.eqb (uri t) (uri v)) a) i)
    sources.

(** The [sources] field [analyzePriceComparison] returns for the grounding
    chunks of a response. *)
Definition citations (chunks : option (list (option Source))) : list Source :=
  uniqueSources (groundingSources chunks).

(** The sources of [rest] whose [uri] is neither in [seen] nor earlier in
    [rest], each at its first occurrence. *)
Fixpoint keepNew (seen rest : list Source) : list Source :=
  match rest with
  | [] => []
  | v :: rest' =>
      if existsb (fun t => String.eqb (uri t) (uri v)) seen
      then keepNew (seen ++ [v])%list rest'
      else v :: keepNew (seen ++ [v])%list rest'
  end.

(** ** The countdown of the product page ([ProductDetailPage]) *)

(** [Math.max(0, Math.ceil((lockExpiresAt - now) / 1000))] on integer
    instants. *)
Definition remainingSeconds (lockExpiresAt now : Z) : Z :=
  Z.max 0 (- ((- (lockExpiresAt - now)) / 1000))%Z.

(** * Properties *)

(** ** The example states are reachable *)

Lemma lockedExample_reachable : reachable exampleConfig lockedExample.
Proof.
  exact (reach_step exampleConfig (initDrop exampleConfig)
           (View "viewer_1" 1000) (reach_init exampleConfig)).
Defined.

Lemma queuedExample_reachable : reachable exampleConfig queuedExample.
Proof.
  exact (reach_step exampleConfig lockedExample (View "viewer_2" 2000)
           lockedExample_reachable).
Defined.

Lemma soldExample_reachable : reachable exampleConfig soldExample.
Proof.
  exact (reach_step exampleConfig lockedExample (Purchase "viewer_1" 2000)
           lockedExample_reachable).
Defined.

(** The scenario of section 8 of the specification, step by step. *)
Example spec_scenario :
  currentPrice lockedExample == 1096
  /\ status (applyView lockedExample exampleConfig "viewer_2" 2000) = QUEUED
  /\ queuePosition (applyView lockedExample exampleConfig "viewer_2" 2000)
     = Some 1%Z
  /\ currentPrice queuedExample == 1096
  /\ p_soldPrice (applyPurchase queuedExample exampleConfig "viewer_1" 3000)
     == 1096
  /\ p_totalSupplierRevenue
       (applyPurchase queuedExample exampleConfig "viewer_1" 3000)
     == 109625 # 100
  /\ p_totalQomoRevenue
       (applyPurchase queuedExample exampleConfig "viewer_1" 3000)
     == 75 # 100
  /\ isSold (p_state (applyPurchase queuedExample exampleConfig "viewer_1" 3000))
     = true
  /\ status
       (applyView
          (p_state (applyPurchase queuedExample exampleConfig "viewer_1" 3000))
          exampleConfig "viewer_2" 4000)
     = SOLD.
Proof.
  repeat match goal with |- _ /\ _ => split end; vm_compute; reflexivity.
Qed.

(** ** Rounding *)

Section Rounding.

Lemma ltb_lt a b : JS.ltb a b = true <-> a < b.
Proof.
  unfold JS.ltb. rewrite negb_true_iff, <- not_true_iff_false, Qle_bool_iff.
  split; [apply Qnot_le_lt | apply Qlt_not_le].
Qed.


Lemma Qfloor_unique (x : Q) (n : Z) :
  inject_Z n <= x -> x < inject_Z (n + 1) -> Qfloor x = n.
Proof.
  intros Hlo Hhi.
  assert (n <= Qfloor x)%Z
    by (rewrite <- (Qfloor_Z n); now apply Qfloor_resp_le).
  assert (Qfloor x < n + 1)%Z
    by (rewrite Zlt_Qlt; eapply Qle_lt_trans; [apply Qfloor_le | exact Hhi]).
  lia.
Qed.

#[export] Instance roundMoney_comp : Proper (Qeq ==> Qeq) roundMoney.
Proof.
  intros x y Hxy. unfold roundMoney, JS.Math_round. now rewrite Hxy.
Qed.


(** Amounts of the form [n / 100] are fixed by [roundMoney]. *)
Lemma roundMoney_cents (n : Z) : roundMoney (inject_Z n / 100) == inject_Z n / 100.
Proof.
  unfold roundMoney, JS.Math_round.
  assert (E : (inject_Z n / 100 + JS.EPSILON) * 100 + (1 # 2)
              == inject_Z n + (100 * JS.EPSILON + (1 # 2))) by field.
  assert (Hlo : 0 <= 100 * JS.EPSILON + (1 # 2)) by now compute.
  assert (Hhi : 100 * JS.EPSILON + (1 # 2) < 1) by now compute.
  rewrite (Qfloor_unique _ n); [reflexivity | |]; rewrite E.
  - generalize dependent (100 * JS.EPSILON + (1 # 2)). intros; lra.
  - rewrite inject_Z_plus. change (inject_Z 1) with 1.
    generalize dependent (100 * JS.EPSILON + (1 # 2)). intros; lra.
Qed.


Lemma wholeCents_iff x : wholeCents x <-> exists n : Z, x == inject_Z n / 100.
Proof.
  split.
  - intros H. eexists. symmetry. exact H.
  - intros [n Hn]. unfold wholeCents. rewrite Hn. apply roundMoney_cents.
Qed.

Lemma wholeCents_0 : wholeCents 0.
Proof. apply wholeCents_iff. exists 0%Z. reflexivity. Qed.


End Rounding.

(** ** How the operations move the price *)

Section Price.

Variable config : DropConfig.















End Price.

(** ** Locks, queues and the terminal state *)

Section Locks.

(** What the truthiness chain of [isLocked] amounts to: a holder with a
    non-empty id and a non-zero expiry instant that lies after [now]. *)
Lemma isLocked_iff st now :
  isLocked st now = true <->
  exists holder expiry,
    activeViewerId st = Some holder /\ holder <> ""
    /\ activeViewExpiresAt st = Some expiry /\ expiry <> 0%Z
    /\ (now < expiry)%Z.
Proof.
  unfold isLocked.
  destruct (activeViewerId st) as [holder |], (activeViewExpiresAt st) as [expiry |];
    cbn [JS.truthyString JS.truthyNumber JS.toNumber].
  - rewrite !andb_true_iff, !negb_true_iff, String.eqb_neq, Z.eqb_neq, Z.ltb_lt.
    split.
    + intros [[Hh He] Hlt]. now exists holder, expiry.
    + intros (h & e & [= <-] & Hh & [= <-] & He & Hlt). auto.
  - rewrite andb_false_r. cbn.
    split; [discriminate | intros (h & e & _ & _ & [=] & _)].
  - cbn. split; [discriminate | intros (h & e & [=] & _)].
  - cbn. split; [discriminate | intros (h & e & [=] & _)].
Qed.

(** The purchase guard is the same lock test, for a holder other than
    the buyer. *)
Lemma lockedByOther_isLocked st buyer now :
  lockedByOther st buyer now
  = isLocked st now && negb (JS.strictEqNullable (activeViewerId st) buyer).
Proof.
  unfold lockedByOther, isLocked.
  destruct (JS.truthyString _), (JS.strictEqNullable _ _),
    (JS.truthyNumber _), (_ <? _)%Z; reflexivity.
Qed.

Lemma strictEqNullable_iff a s :
  JS.strictEqNullable a s = true <-> a = Some s.
Proof.
  destruct a as [a |]; cbn; [| split; discriminate].
  rewrite String.eqb_eq. split; [now intros -> | now intros [= ->]].
Qed.

Lemma strictEqNullable_false a s :
  JS.strictEqNullable a s = false <-> a <> Some s.
Proof.
  rewrite <- strictEqNullable_iff. now destruct (JS.strictEqNullable a s).
Qed.

Lemma applyView_sold st config viewerId now :
  isSold st = true -> state (applyView st config viewerId now) = st.
Proof. unfold applyView. now intros ->. Qed.

Lemma applyView_stays_unsold st config viewerId now :
  isSold st = false -> isSold (state (applyView st config viewerId now)) = false.
Proof.
  intros Hs. unfold applyView. rewrite Hs.
  destruct (isLocked st now).
  - now destruct (JS.strictEqNullable _ _).
  - destruct (queue st) as [| head rest]; [exact Hs |].
    now destruct (negb _).
Qed.

Lemma step_soldCleared config st op :
  soldCleared st -> soldCleared (step config st op).
Proof.
  intros Hinv. destruct op as [viewerId now | viewerId | buyer now]; cbn [step].
  - destruct (isSold st) eqn:Hs.
    + now rewrite applyView_sold.
    + intros Hs'. now rewrite applyView_stays_unsold in Hs'.
  - unfold releaseLock. destruct (JS.strictEqNullable _ _) eqn:E; [| exact Hinv].
    intros Hs. destruct (Hinv Hs) as (Hv & _). rewrite Hv in E. discriminate.
  - unfold applyPurchase. destruct (isSold st) eqn:Hs.
    + intros _. now apply Hinv.
    + destruct (lockedByOther st buyer now); [exact Hinv |].
      intros _. cbn. auto.
Qed.

Lemma reachable_soldCleared config st : reachable config st -> soldCleared st.
Proof.
  induction 1 as [| st op _ IH]; [discriminate | now apply step_soldCleared].
Qed.

Lemma reachable_locked_unsold config st now :
  reachable config st -> isLocked st now = true -> isSold st = false.
Proof.
  intros Hr Hl. destruct (isSold st) eqn:Hs; [| reflexivity].
  destruct (reachable_soldCleared _ _ Hr Hs) as (Hv & _).
  unfold isLocked in Hl. rewrite Hv in Hl. discriminate.
Qed.

End Locks.

(** ** Queue primitives *)

Section Queue.

Lemma includes_In xs s : JS.includes xs s = true <-> In s xs.
Proof.
  unfold JS.includes. rewrite existsb_exists. split.
  - intros (x & Hin & Heq). apply String.eqb_eq in Heq. now subst.
  - intros Hin. exists s. split; [exact Hin | apply String.eqb_refl].
Qed.

Lemma enqueue_present q s : In s q -> enqueue q s = q.
Proof. intros H. apply includes_In in H. unfold enqueue. now rewrite H. Qed.

Lemma enqueue_absent q s : ~ In s q -> enqueue q s = (q ++ [s])%list.
Proof.
  intros H. unfold enqueue, JS.push.
  destruct (JS.includes q s) eqn:E; [| reflexivity].
  now apply includes_In in E.
Qed.

Lemma enqueue_In q s : In s (enqueue q s).
Proof.
  unfold enqueue, JS.push. destruct (JS.includes q s) eqn:E.
  - now apply includes_In.
  - apply in_or_app. right. now left.
Qed.

(** [indexOf] finds the first occurrence. *)
Lemma indexOfFrom_first xs s : forall i,
  In s xs ->
  exists k : nat,
    nth_error xs k = Some s
    /\ (forall j, (j < k)%nat -> nth_error xs j <> Some s)
    /\ JS.indexOfFrom i xs s = (i + Z.of_nat k)%Z.
Proof.
  induction xs as [| x xs IH]; intros i Hin; [contradiction |].
  cbn [JS.indexOfFrom]. destruct (String.eqb x s) eqn:E.
  - apply String.eqb_eq in E. subst x. exists 0%nat.
    repeat split; [lia | cbn; lia].
  - apply String.eqb_neq in E. destruct Hin as [-> | Hin]; [contradiction |].
    destruct (IH (i + 1)%Z Hin) as (k & Hk & Hfirst & Hidx).
    exists (S k). repeat split; [exact Hk | | lia].
    intros [| j] Hj; cbn; [congruence | apply Hfirst; lia].
Qed.

Lemma indexOf_first xs s :
  In s xs ->
  exists k : nat,
    nth_error xs k = Some s
    /\ (forall j, (j < k)%nat -> nth_error xs j <> Some s)
    /\ JS.indexOf xs s = Z.of_nat k.
Proof.
  intros Hin. destruct (indexOfFrom_first xs s 0%Z Hin) as (k & ? & ? & ?).
  exists k. auto.
Qed.

Lemma filter_removes q s :
  ~ In s (filter (fun id => negb (String.eqb id s)) q).
Proof.
  rewrite filter_In. intros [_ H]. now rewrite String.eqb_refl in H.
Qed.

End Queue.

(** ** The remaining invariants of the data model *)

Section Invariants.

Variable config : DropConfig.




Lemma enqueue_NoDup q s : NoDup q -> NoDup (enqueue q s).
Proof.
  intros Hq. unfold enqueue, JS.push.
  destruct (JS.includes q s) eqn:E; [exact Hq |].
  apply NoDup_app; [exact Hq | repeat constructor; intros [] | ].
  intros x Hx [<- | []]. apply includes_In in Hx. congruence.
Qed.

Lemma step_queueDiscipline st op :
  queueDiscipline st -> queueDiscipline (step config st op).
Proof.
  intros [Hnodup Hholder].
  destruct op as [viewerId now | viewerId | buyer now]; cbn [step].
  - unfold applyView.
    destruct (isSold st); [now split |].
    destruct (isLocked st now).
    + destruct (JS.strictEqNullable _ _) eqn:E; [now split |].
      apply strictEqNullable_false in E.
      split; cbn; [now apply enqueue_NoDup |].
      intros holder Hh Hin. unfold enqueue, JS.push in Hin.
      destruct (JS.includes _ _); [now apply (Hholder holder) |].
      apply in_app_or in Hin. destruct Hin as [Hin | [<- | []]].
      * now apply (Hholder holder).
      * congruence.
    + assert (Hgrant : queueDiscipline (state (grantLock st config viewerId now))).
      { split; cbn.
        - now apply NoDup_filter.
        - intros holder [= <-]. apply filter_removes. }
      destruct (queue st) as [| head rest] eqn:Hq; [exact Hgrant |].
      destruct (negb _); [| exact Hgrant].
      split; cbn; [| discriminate].
      rewrite <- Hq. apply enqueue_NoDup. now rewrite Hq.
  - unfold releaseLock.
    destruct (JS.strictEqNullable _ _); [| now split].
    split; cbn; [exact Hnodup | discriminate].
  - unfold applyPurchase.
    destruct (isSold st); [now split |].
    destruct (lockedByOther st buyer now); [now split |].
    split; cbn; [constructor | discriminate].
Qed.

Lemma reachable_queueDiscipline st :
  reachable config st -> queueDiscipline st.
Proof.
  induction 1 as [| st op _ IH]; [| now apply step_queueDiscipline].
  split; cbn; [constructor | discriminate].
Qed.

End Invariants.

(** X1: in every reachable state the queue holds no actor twice, and the
    actor recorded as the holder of the lock is not waiting in it. *)
Theorem queue_discipline (config : DropConfig) (st : DropState) :
  reachable config st ->
  NoDup (queue st)
  /\ forall holder, activeViewerId st = Some holder -> ~ In holder (queue st).
Proof. apply reachable_queueDiscipline. Qed.

Lemma queue_discipline_witness :
  reachable exampleConfig queuedExample
  /\ queue queuedExample = ["viewer_2"]
  /\ activeViewerId queuedExample = Some "viewer_1"
  /\ ~ In "viewer_1" (queue queuedExample).
Proof.
  split; [exact queuedExample_reachable | split; [reflexivity |]].
  split; [reflexivity |].
  exact (proj2 (queue_discipline exampleConfig queuedExample
                  queuedExample_reachable) "viewer_1" eq_refl).
Defined.



(** ** Initialisation *)

(** C10 (amended): [initDrop] copies the product id, starts the price at the
    base price rounded to two decimals, unsold, with no views, no lock, an
    empty queue and zero totals.  The price is not clamped to [minPrice]:
    whenever the rounded base price is below the floor, and so for every
    whole-cent base price below the floor, the initial price is below it. *)
Theorem initDrop_postconditions (config : DropConfig) :
  let st := initDrop config in
  productId st = cfg_productId config
  /\ currentPrice st == roundMoney (basePrice config)
  /\ isSold st = false
  /\ totalViews st = 0%Z
  /\ buyerId st = None /\ soldPrice st = None
  /\ activeViewerId st = None /\ activeViewExpiresAt st = None
  /\ queue st = []
  /\ totalPlatformRevenue st == 0
  /\ totalSupplierPlatformRevenue st == 0
  /\ totalQomoRevenue st == 0
  /\ (roundMoney (basePrice config) < minPrice config ->
      currentPrice st < minPrice config)
  /\ (wholeCents (basePrice config) ->
      basePrice config < minPrice config ->
      currentPrice st < minPrice config).
Proof.
  cbn. repeat split; try reflexivity; try easy.
  intros Hc Hlt. unfold wholeCents in Hc. now rewrite Hc.
Qed.

Lemma initDrop_postconditions_witness :
  wholeCents (basePrice belowFloorConfig)
  /\ basePrice belowFloorConfig < minPrice belowFloorConfig
  /\ currentPrice (initDrop belowFloorConfig) < minPrice belowFloorConfig.
Proof.
  assert (Hc : wholeCents (basePrice belowFloorConfig)) by (vm_compute; reflexivity).
  assert (Hlt : basePrice belowFloorConfig < minPrice belowFloorConfig)
    by (vm_compute; reflexivity).
  split; [exact Hc | split; [exact Hlt |]].
  destruct (initDrop_postconditions belowFloorConfig)
    as (_ & _ & _ & _ & _ & _ & _ & _ & _ & _ & _ & _ & _ & Hbelow).
  exact (Hbelow Hc Hlt).
Defined.

(** C10, as stated, fails: a base price of 999.996 is below the floor of
    1000, yet it rounds up to 1000.00, which is not below the floor. *)
Lemma initDrop_rounds_up_to_floor :
  basePrice subCentBaseConfig < minPrice subCentBaseConfig
  /\ ~ currentPrice (initDrop subCentBaseConfig) < minPrice subCentBaseConfig.
Proof.
  split; [vm_compute; reflexivity | vm_compute; discriminate].
Qed.

(** ** Cancelling *)

(** C9: [releaseLock] by the holder clears the two lock fields and nothing
    else; by anyone else it returns its argument; a second release changes
    nothing more.  It is a total function: there is no failing case. *)
Theorem releaseLock_frame (st : DropState) (actor : string) :
  (activeViewerId st = Some actor ->
   let st' := releaseLock st actor in
   activeViewerId st' = None
   /\ activeViewExpiresAt st' = None
   /\ queue st' = queue st
   /\ productId st' = productId st
   /\ currentPrice st' = currentPrice st
   /\ isSold st' = isSold st
   /\ totalViews st' = totalViews st
   /\ buyerId st' = buyerId st
   /\ soldPrice st' = soldPrice st
   /\ totalPlatformRevenue st' = totalPlatformRevenue st
   /\ totalSupplierPlatformRevenue st' = totalSupplierPlatformRevenue st
   /\ totalQomoRevenue st' = totalQomoRevenue st)
  /\ (activeViewerId st <> Some actor -> releaseLock st actor = st)
  /\ releaseLock (releaseLock st actor) actor = releaseLock st actor.
Proof.
  unfold releaseLock. split; [| split].
  - intros H. apply strictEqNullable_iff in H. rewrite H. cbn. tauto.
  - intros H. apply strictEqNullable_false in H. now rewrite H.
  - destruct (JS.strictEqNullable (activeViewerId st) actor) eqn:E.
    + reflexivity.
    + now rewrite E.
Qed.

Lemma releaseLock_frame_witness :
  activeViewerId lockedExample = Some "viewer_1"
  /\ activeViewerId (releaseLock lockedExample "viewer_1") = None
  /\ activeViewerId lockedExample <> Some "viewer_2"
  /\ releaseLock lockedExample "viewer_2" = lockedExample.
Proof.
  assert (Hne : activeViewerId lockedExample <> Some "viewer_2")
    by (vm_compute; discriminate).
  split; [reflexivity | split; [| split; [exact Hne |]]].
  - exact (proj1 (proj1 (releaseLock_frame lockedExample "viewer_1") eq_refl)).
  - exact (proj1 (proj2 (releaseLock_frame lockedExample "viewer_2")) Hne).
Defined.

(** ** Purchase settlement *)

Section Purchase.

Variables (config : DropConfig) (buyer : string) (now : Z).

Lemma lockedByOther_false st :
  lockedByOther st buyer now = false <->
  isLocked st now = false \/ activeViewerId st = Some buyer.
Proof.
  rewrite lockedByOther_isLocked, andb_false_iff, negb_false_iff.
  now rewrite strictEqNullable_iff.
Qed.

Lemma lockedByOther_true st :
  lockedByOther st buyer now = true <->
  isLocked st now = true /\ activeViewerId st <> Some buyer.
Proof.
  rewrite lockedByOther_isLocked, andb_true_iff, negb_true_iff.
  now rewrite strictEqNullable_false.
Qed.

End Purchase.

(** C3: on an unsold state whose lock, if any is unexpired, is held by the
    buyer, [applyPurchase] succeeds, sells at the current price without
    moving it, pays the supplier the rounded sum of that price and the
    accrued supplier share, reports the accrued operator share as it stands,
    and returns the terminal state: sold, buyer and price recorded, lock and
    queue cleared. *)
Theorem applyPurchase_settles (st : DropState) (config : DropConfig)
    (buyer : string) (now : Z) :
  isSold st = false ->
  isLocked st now = false \/ activeViewerId st = Some buyer ->
  let r := applyPurchase st config buyer now in
  let st' := p_state r in
  p_success r = true
  /\ p_error r = None
  /\ p_soldPrice r = currentPrice st
  /\ p_totalSupplierRevenue r
     = roundMoney (p_soldPrice r + totalSupplierPlatformRevenue st)
  /\ p_totalQomoRevenue r = totalQomoRevenue st
  /\ isSold st' = true
  /\ buyerId st' = Some buyer
  /\ soldPrice st' = Some (currentPrice st)
  /\ activeViewerId st' = None
  /\ activeViewExpiresAt st' = None
  /\ queue st' = []
  /\ currentPrice st' = currentPrice st
  /\ productId st' = productId st
  /\ totalViews st' = totalViews st
  /\ totalPlatformRevenue st' = totalPlatformRevenue st
  /\ totalSupplierPlatformRevenue st' = totalSupplierPlatformRevenue st
  /\ totalQomoRevenue st' = totalQomoRevenue st.
Proof.
  intros Hs Hfree. apply lockedByOther_false in Hfree.
  unfold applyPurchase. rewrite Hs, Hfree. cbn. tauto.
Qed.

(** The holder of the example lock buys inside the lock window. *)
Lemma applyPurchase_settles_witness :
  isSold lockedExample = false
  /\ activeViewerId lockedExample = Some "viewer_1"
  /\ p_success (applyPurchase lockedExample exampleConfig "viewer_1" 2000) = true
  /\ p_soldPrice (applyPurchase lockedExample exampleConfig "viewer_1" 2000) == 1096
  /\ p_totalSupplierRevenue
       (applyPurchase lockedExample exampleConfig "viewer_1" 2000) == 109625 # 100
  /\ p_totalQomoRevenue
       (applyPurchase lockedExample exampleConfig "viewer_1" 2000) == 75 # 100.
Proof.
  destruct (applyPurchase_settles lockedExample exampleConfig "viewer_1" 2000
              eq_refl (or_intror eq_refl))
    as (Hok & _ & Hprice & Hsupplier & Hqomo & _).
  split; [reflexivity | split; [reflexivity | split; [exact Hok |]]].
  rewrite Hsupplier, Hprice, Hqomo.
  split; [| split]; vm_compute; reflexivity.
Defined.

(** C4: [applyPurchase] fails exactly when the state is already sold or an
    unexpired lock is held by somebody other than the buyer, with the
    matching message, and a failure hands back the state it was given; in
    every other case, a buyer without a lock included, it succeeds. *)
Theorem applyPurchase_fails_iff (st : DropState) (config : DropConfig)
    (buyer : string) (now : Z) :
  let r := applyPurchase st config buyer now in
  (p_success r = false <->
   isSold st = true
   \/ (isLocked st now = true /\ activeViewerId st <> Some buyer))
  /\ (isSold st = true ->
      p_success r = false /\ p_error r = Some "Product is already sold.")
  /\ (isSold st = false ->
      isLocked st now = true /\ activeViewerId st <> Some buyer ->
      p_success r = false
      /\ p_error r = Some "Product is currently locked by another user.")
  /\ (p_success r = false ->
      p_state r = st /\ p_soldPrice r = 0
      /\ p_totalSupplierRevenue r = 0 /\ p_totalQomoRevenue r = 0)
  /\ (isSold st = false ->
      isLocked st now = false \/ activeViewerId st = Some buyer ->
      p_success r = true /\ p_error r = None)
  /\ (isSold st = false -> isLocked st now = false -> p_success r = true).
Proof.
  cbv zeta. unfold applyPurchase.
  destruct (isSold st) eqn:Hs; [cbn; intuition congruence |].
  destruct (lockedByOther st buyer now) eqn:Hl; cbn.
  - apply lockedByOther_true in Hl. destruct Hl as [Hlk Hne].
    intuition congruence.
  - apply lockedByOther_false in Hl.
    intuition congruence.
Qed.

(** Somebody else tries to buy while [viewer_1] holds the example lock. *)
Lemma applyPurchase_fails_iff_witness :
  isSold lockedExample = false
  /\ (isLocked lockedExample 2000 = true
      /\ activeViewerId lockedExample <> Some "viewer_2")
  /\ p_success (applyPurchase lockedExample exampleConfig "viewer_2" 2000) = false
  /\ p_error (applyPurchase lockedExample exampleConfig "viewer_2" 2000)
     = Some "Product is currently locked by another user.".
Proof.
  assert (Hl : isLocked lockedExample 2000 = true
               /\ activeViewerId lockedExample <> Some "viewer_2")
    by (split; [reflexivity | vm_compute; discriminate]).
  split; [reflexivity | split; [exact Hl |]].
  destruct (applyPurchase_fails_iff lockedExample exampleConfig "viewer_2" 2000)
    as (_ & _ & Hother & _).
  exact (Hother eq_refl Hl).
Defined.

(** ** Viewing *)

Section View.

Variables (config : DropConfig) (actor : string) (now : Z).


Lemma applyView_holder st :
  isSold st = false ->
  isLocked st now = true ->
  activeViewerId st = Some actor ->
  applyView st config actor now
  = {| success := true; status := LOCKED;
       expiresAt := activeViewExpiresAt st; queuePosition := None;
       dropAmount := 0; newPrice := currentPrice st; feeCharged := 0;
       state := st; error := None |}.
Proof.
  intros Hs Hl Hv. apply strictEqNullable_iff in Hv.
  unfold applyView. now rewrite Hs, Hl, Hv.
Qed.

Lemma applyView_behind_lock st :
  isSold st = false ->
  isLocked st now = true ->
  activeViewerId st <> Some actor ->
  applyView st config actor now
  = queuedResult st (withQueue st (enqueue (queue st) actor))
      (enqueue (queue st) actor) actor.
Proof.
  intros Hs Hl Hv. apply strictEqNullable_false in Hv.
  unfold applyView. now rewrite Hs, Hl, Hv.
Qed.

Lemma applyView_behind_queue st head rest :
  isSold st = false ->
  isLocked st now = false ->
  queue st = head :: rest ->
  head <> actor ->
  applyView st config actor now
  = queuedResult st (withQueue (clearLock st) (enqueue (queue st) actor))
      (enqueue (queue st) actor) actor.
Proof.
  intros Hs Hl Hq Hne. apply String.eqb_neq in Hne.
  unfold applyView. now rewrite Hs, Hl, Hq, Hne.
Qed.


End View.



(** C5: while its lock is unexpired the holder may call [applyView] again:
    the answer is a success with status [LOCKED], the stored expiry, no fee,
    no drop, the current price, and the very same state; and so any number
    of such calls before expiry leaves the state as it was. *)
Theorem applyView_holder_idempotent (config : DropConfig) (st : DropState)
    (actor : string) (now : Z) :
  reachable config st ->
  isLocked st now = true ->
  activeViewerId st = Some actor ->
  let r := applyView st config actor now in
  (success r = true
   /\ status r = LOCKED
   /\ expiresAt r = activeViewExpiresAt st
   /\ feeCharged r == 0
   /\ dropAmount r == 0
   /\ newPrice r == currentPrice st
   /\ state r = st)
  /\ (forall instants : list Z,
         Forall (fun t => isLocked st t = true) instants ->
         run config st (repoll actor instants) = st
         /\ Forall (fun t => feeCharged (applyView st config actor t) == 0
                             /\ state (applyView st config actor t) = st)
              instants).
Proof.
  intros Hr Hl Hv. cbv zeta.
  assert (Hcall : forall t, isLocked st t = true ->
            applyView st config actor t
            = {| success := true; status := LOCKED;
                 expiresAt := activeViewExpiresAt st; queuePosition := None;
                 dropAmount := 0; newPrice := currentPrice st; feeCharged := 0;
                 state := st; error := None |}).
  { intros t Ht. apply applyView_holder; [| exact Ht | exact Hv].
    now apply reachable_locked_unsold with config t. }
  split.
  - rewrite (Hcall now Hl). cbn. intuition reflexivity.
  - induction 1 as [| t instants Ht _ [IHrun IHall]].
    + split; [reflexivity | constructor].
    + split.
      * cbn. rewrite (Hcall t Ht). exact IHrun.
      * constructor; [| exact IHall].
        rewrite (Hcall t Ht). cbn. split; reflexivity.
Qed.

(** [viewer_1] polls three times inside the window of the example lock. *)
Lemma applyView_holder_idempotent_witness :
  isLocked lockedExample 2000 = true
  /\ activeViewerId lockedExample = Some "viewer_1"
  /\ state (applyView lockedExample exampleConfig "viewer_1" 2000) = lockedExample
  /\ run exampleConfig lockedExample (repoll "viewer_1" [2000; 15000; 30999]%Z)
     = lockedExample.
Proof.
  destruct (applyView_holder_idempotent exampleConfig lockedExample "viewer_1"
              2000 lockedExample_reachable eq_refl eq_refl)
    as [(_ & _ & _ & _ & _ & _ & Hsame) Hmany].
  split; [reflexivity | split; [reflexivity | split; [exact Hsame |]]].
  apply Hmany. repeat constructor.
Defined.

(** C6: a call answered [LOCKED] comes either from the holder of the
    unexpired lock or, with no unexpired lock, from an actor facing an empty
    queue or standing at its head.  Behind somebody else's unexpired lock
    the actor is appended to the queue unless already there, is told
    [QUEUED] with the 1-based position of its first occurrence, and only the
    queue changes.  With no unexpired lock but another actor at the head of
    the queue, the caller is queued in the same way, the stale lock fields
    are cleared, and nobody holds the lock afterwards. *)
Theorem applyView_fifo (config : DropConfig) (st : DropState)
    (actor : string) (now : Z) :
  reachable config st ->
  let r := applyView st config actor now in
  let queued :=
    success r = false
    /\ status r = QUEUED
    /\ (In actor (queue st) -> queue (state r) = queue st)
    /\ (~ In actor (queue st) -> queue (state r) = (queue st ++ [actor])%list)
    /\ (exists index : nat,
           nth_error (queue (state r)) index = Some actor
           /\ (forall j, (j < index)%nat ->
                         nth_error (queue (state r)) j <> Some actor)
           /\ queuePosition r = Some (Z.of_nat index + 1)%Z)
    /\ feeCharged r == 0
    /\ dropAmount r == 0
    /\ newPrice r == currentPrice st
    /\ currentPrice (state r) = currentPrice st
    /\ totalViews (state r) = totalViews st
    /\ isSold (state r) = false in
  (status r = LOCKED ->
   (isLocked st now = true /\ activeViewerId st = Some actor)
   \/ (isLocked st now = false
       /\ (queue st = [] \/ hd_error (queue st) = Some actor)))
  /\ (isLocked st now = true ->
      activeViewerId st <> Some actor ->
      queued
      /\ activeViewerId (state r) = activeViewerId st
      /\ activeViewExpiresAt (state r) = activeViewExpiresAt st
      /\ state r = withQueue st (queue (state r)))
  /\ (isLocked st now = false ->
      forall head rest,
        queue st = head :: rest ->
        head <> actor ->
        queued
        /\ activeViewerId (state r) = None
        /\ activeViewExpiresAt (state r) = None
        /\ state r = withQueue (clearLock st) (queue (state r))).
Proof.
  intros Hr. cbv zeta.
  assert (Hqueued : forall newState,
            currentPrice newState = currentPrice st ->
            totalViews newState = totalViews st ->
            isSold newState = false ->
            queue newState = enqueue (queue st) actor ->
            let r := queuedResult st newState (enqueue (queue st) actor) actor in
            success r = false
            /\ status r = QUEUED
            /\ (In actor (queue st) -> queue (state r) = queue st)
            /\ (~ In actor (queue st) -> queue (state r) = (queue st ++ [actor])%list)
            /\ (exists index : nat,
                   nth_error (queue (state r)) index = Some actor
                   /\ (forall j, (j < index)%nat ->
                                 nth_error (queue (state r)) j <> Some actor)
                   /\ queuePosition r = Some (Z.of_nat index + 1)%Z)
            /\ feeCharged r == 0
            /\ dropAmount r == 0
            /\ newPrice r == currentPrice st
            /\ currentPrice (state r) = currentPrice st
            /\ totalViews (state r) = totalViews st
            /\ isSold (state r) = false).
  { intros newState Hp Hn Hs Hq. cbn. rewrite Hq.
    split; [reflexivity | split; [reflexivity |]].
    split; [apply enqueue_present | split; [apply enqueue_absent |]].
    split.
    - destruct (indexOf_first _ _ (enqueue_In (queue st) actor))
        as (k & Hk & Hfirst & Hidx).
      exists k. rewrite Hidx. auto.
    - intuition reflexivity. }
  split; [| split].
  - unfold applyView.
    destruct (isSold st); [discriminate |].
    destruct (isLocked st now).
    + destruct (JS.strictEqNullable _ _) eqn:E; [| discriminate].
      apply strictEqNullable_iff in E. auto.
    + destruct (queue st) as [| head rest]; [auto |].
      destruct (String.eqb head actor) eqn:E; [| discriminate].
      apply String.eqb_eq in E. subst head. auto.
  - intros Hl Hv.
    assert (Hs : isSold st = false) by now apply reachable_locked_unsold with config now.
    rewrite (applyView_behind_lock config actor now st Hs Hl Hv).
    split; [now apply Hqueued |]. cbn. auto.
  - intros Hl head rest Hq Hne.
    assert (Hs : isSold st = false).
    { destruct (isSold st) eqn:Hs; [| reflexivity].
      destruct (reachable_soldCleared _ _ Hr Hs) as (_ & _ & Hempty).
      congruence. }
    rewrite (applyView_behind_queue config actor now st head rest Hs Hl Hq Hne).
    split; [now apply Hqueued |]. cbn. auto.
Qed.

(** [viewer_2] arrived while [viewer_1] held the example lock; [viewer_3]
    arrives after that lock expired and still has to wait behind
    [viewer_2]. *)
Lemma applyView_fifo_witness :
  reachable exampleConfig queuedExample
  /\ isLocked queuedExample 40000 = false
  /\ queue queuedExample = ["viewer_2"]
  /\ status (applyView queuedExample exampleConfig "viewer_3" 40000) = QUEUED
  /\ activeViewerId (state (applyView queuedExample exampleConfig "viewer_3" 40000))
     = None.
Proof.
  split; [exact queuedExample_reachable | split; [reflexivity | split; [reflexivity |]]].
  destruct (applyView_fifo exampleConfig queuedExample "viewer_3" 40000
              queuedExample_reachable)
    as (_ & _ & Hwait).
  destruct (Hwait eq_refl "viewer_2" [] eq_refl ltac:(discriminate))
    as ((_ & Hstatus & _) & Hcleared & _).
  split; [exact Hstatus | exact Hcleared].
Defined.

(** ** The terminal state *)

(** C7: a sold state is final.  [applyView] answers [SOLD] without success
    or fee and hands the state back, [applyPurchase] fails with the
    already-sold message and hands the state back, [releaseLock] hands the
    state back, and so no sequence of operations changes the price, the
    sale facts or the totals any more. *)
Theorem sold_state_is_final (config : DropConfig) (st : DropState) :
  reachable config st ->
  isSold st = true ->
  (forall actor now,
      applyView st config actor now
      = {| success := false; status := SOLD;
           expiresAt := None; queuePosition := None;
           dropAmount := 0; newPrice := currentPrice st; feeCharged := 0;
           state := st; error := Some "Product is already sold." |})
  /\ (forall buyer now,
         let r := applyPurchase st config buyer now in
         p_success r = false
         /\ p_error r = Some "Product is already sold."
         /\ p_state r = st)
  /\ (forall actor, releaseLock st actor = st)
  /\ (forall ops, run config st ops = st)
  /\ (forall ops,
         let st' := run config st ops in
         currentPrice st' = currentPrice st
         /\ soldPrice st' = soldPrice st
         /\ buyerId st' = buyerId st
         /\ isSold st' = true
         /\ totalPlatformRevenue st' = totalPlatformRevenue st
         /\ totalSupplierPlatformRevenue st' = totalSupplierPlatformRevenue st
         /\ totalQomoRevenue st' = totalQomoRevenue st).
Proof.
  intros Hr Hs.
  assert (Hview : forall actor now,
             applyView st config actor now
             = {| success := false; status := SOLD;
                  expiresAt := None; queuePosition := None;
                  dropAmount := 0; newPrice := currentPrice st; feeCharged := 0;
                  state := st; error := Some "Product is already sold." |})
    by (intros; unfold applyView; now rewrite Hs).
  assert (Hbuy : forall buyer now,
             applyPurchase st config buyer now
             = {| p_success := false; p_soldPrice := 0;
                  p_totalSupplierRevenue := 0; p_totalQomoRevenue := 0;
                  p_state := st; p_error := Some "Product is already sold." |})
    by (intros; unfold applyPurchase; now rewrite Hs).
  assert (Hrel : forall actor, releaseLock st actor = st).
  { intros actor. unfold releaseLock.
    destruct (reachable_soldCleared _ _ Hr Hs) as (-> & _). reflexivity. }
  assert (Hstep : forall op, step config st op = st).
  { intros [actor now | actor | buyer now]; cbn [step].
    - now rewrite Hview.
    - apply Hrel.
    - now rewrite Hbuy. }
  assert (Hrun : forall ops, run config st ops = st).
  { induction ops as [| op ops IH]; [reflexivity |].
    cbn. rewrite Hstep. exact IH. }
  split; [exact Hview | split; [| split; [exact Hrel | split; [exact Hrun |]]]].
  - intros buyer now. rewrite Hbuy. cbn. auto.
  - intros ops. cbv zeta. rewrite Hrun. intuition.
Qed.

Lemma sold_state_is_final_witness :
  isSold soldExample = true
  /\ status (applyView soldExample exampleConfig "viewer_2" 50000) = SOLD
  /\ run exampleConfig soldExample
       [View "viewer_2" 50000; Release "viewer_1"; Purchase "viewer_3" 60000]
     = soldExample.
Proof.
  destruct (sold_state_is_final exampleConfig soldExample
              soldExample_reachable eq_refl)
    as (Hview & _ & _ & Hrun & _).
  split; [reflexivity | split; [| apply Hrun]].
  now rewrite Hview.
Defined.

(** ** Price floor and bounds *)




(** ** The clock *)




(** ** Further properties of the engine *)

Section Engine.

Variable config : DropConfig.

#[export] Instance wholeCents_comp : Proper (Qeq ==> iff) wholeCents.
Proof. intros x y Hxy. unfold wholeCents. now rewrite Hxy. Qed.





End Engine.



(** *** The lock is exclusive *)

Lemma withQueue_same st : withQueue st (queue st) = st.
Proof. now destruct st. Qed.

Lemma withQueue_twice st q q' : withQueue (withQueue st q) q' = withQueue st q'.
Proof. reflexivity. Qed.

Lemma isLocked_withQueue st q now : isLocked (withQueue st q) now = isLocked st now.
Proof. reflexivity. Qed.

Lemma enqueue_suffix q s : exists suffix, enqueue q s = (q ++ suffix)%list.
Proof.
  unfold enqueue, JS.push. destruct (JS.includes q s).
  - exists []. now rewrite app_nil_r.
  - now exists [s].
Qed.

(** One operation by somebody else inside the lock window can only add a
    waiter. *)
Lemma step_behind_lock config holder st op :
  isSold st = false ->
  activeViewerId st = Some holder ->
  byOtherWithinLock holder st op ->
  exists suffix,
    step config st op = withQueue st (queue st ++ suffix)%list.
Proof.
  intros Hs Hh Hop.
  assert (Hnot : forall a, a <> holder -> activeViewerId st <> Some a)
    by (intros a Ha; rewrite Hh; congruence).
  destruct op as [viewerId now | viewerId | buyer now]; cbn in Hop; cbn [step].
  - destruct Hop as [Hne Hl].
    rewrite (applyView_behind_lock config viewerId now st Hs Hl (Hnot _ Hne)).
    destruct (enqueue_suffix (queue st) viewerId) as [suffix ->].
    now exists suffix.
  - exists []. rewrite app_nil_r, withQueue_same.
    unfold releaseLock.
    now rewrite (proj2 (strictEqNullable_false _ _) (Hnot _ Hop)).
  - destruct Hop as [Hne Hl]. exists []. rewrite app_nil_r, withQueue_same.
    unfold applyPurchase. rewrite Hs.
    now rewrite (proj2 (lockedByOther_true buyer now st) (conj Hl (Hnot _ Hne))).
Qed.

Lemma byOtherWithinLock_withQueue holder st q op :
  byOtherWithinLock holder st op -> byOtherWithinLock holder (withQueue st q) op.
Proof. now destruct op. Qed.

Lemma run_behind_lock config holder ops : forall st,
  isSold st = false ->
  activeViewerId st = Some holder ->
  Forall (byOtherWithinLock holder st) ops ->
  exists suffix,
    run config st ops = withQueue st (queue st ++ suffix)%list.
Proof.
  induction ops as [| op ops IH]; intros st Hs Hh Hops.
  - exists []. now rewrite app_nil_r, withQueue_same.
  - inversion Hops as [| ? ? Hop Hrest]; subst.
    destruct (step_behind_lock config holder st op Hs Hh Hop) as [s1 Hstep].
    cbn [run fold_left]. rewrite Hstep.
    destruct (IH (withQueue st (queue st ++ s1)%list)) as [s2 Hrun].
    + exact Hs.
    + exact Hh.
    + eapply Forall_impl; [| exact Hrest].
      intros a. apply byOtherWithinLock_withQueue.
    + exists (s1 ++ s2)%list. unfold run in Hrun. rewrite Hrun.
      cbn [queue withQueue]. now rewrite withQueue_twice, app_assoc.
Qed.

(** X4: while the lock of [holder] is unexpired nobody else can move the
    product.  After any operations by other actors inside the lock window
    the state differs from the one the holder saw only by waiters appended
    to the queue: price, totals, view count and lock are the same and the
    product is unsold; and a purchase by the holder inside the window
    succeeds at the price the holder was shown. *)
Theorem lock_is_exclusive (config : DropConfig) (st : DropState)
    (holder : string) (ops : list Op) :
  reachable config st ->
  activeViewerId st = Some holder ->
  Forall (byOtherWithinLock holder st) ops ->
  let st' := run config st ops in
  (exists arrivals, st' = withQueue st (queue st ++ arrivals)%list)
  /\ currentPrice st' = currentPrice st
  /\ isSold st' = isSold st
  /\ activeViewerId st' = Some holder
  /\ activeViewExpiresAt st' = activeViewExpiresAt st
  /\ forall now,
       isLocked st now = true ->
       let r := applyPurchase st' config holder now in
       p_success r = true
       /\ p_soldPrice r = currentPrice st
       /\ buyerId (p_state r) = Some holder.
Proof.
  intros Hr Hh Hops. cbv zeta.
  assert (Hrun : exists arrivals,
             run config st ops = withQueue st (queue st ++ arrivals)%list).
  { destruct ops as [| op ops'].
    - exists []. now rewrite app_nil_r, withQueue_same.
    - assert (Hs : isSold st = false).
      { inversion Hops as [| ? ? Hop _]; subst.
        destruct op as [a t | a | b t]; cbn in Hop.
        - now apply reachable_locked_unsold with config t.
        - destruct (isSold st) eqn:Hs; [| reflexivity].
          destruct (reachable_soldCleared _ _ Hr Hs) as (Hv & _). congruence.
        - now apply reachable_locked_unsold with config t. }
      now apply run_behind_lock with holder. }
  destruct Hrun as [arrivals Hrun].
  split; [now exists arrivals |].
  rewrite Hrun. cbn [withQueue currentPrice isSold activeViewerId activeViewExpiresAt].
  repeat match goal with |- _ /\ _ => split end; try reflexivity; try exact Hh.
  intros now Hl.
  assert (Hs : isSold st = false) by now apply reachable_locked_unsold with config now.
  unfold applyPurchase. cbn [withQueue isSold]. rewrite Hs.
  rewrite (proj2 (lockedByOther_false holder now
                    (withQueue st (queue st ++ arrivals)%list))
             (or_intror Hh)).
  cbn. auto.
Qed.

(** Others view, try to buy and cancel while [viewer_1] holds the example
    lock; [viewer_1] then buys at the price it was shown. *)
Lemma lock_is_exclusive_witness :
  activeViewerId lockedExample = Some "viewer_1"
  /\ Forall (byOtherWithinLock "viewer_1" lockedExample)
       [View "viewer_2" 2000; Purchase "viewer_3" 3000; Release "viewer_2";
        View "viewer_3" 30999]
  /\ isLocked lockedExample 30999 = true
  /\ p_success
       (applyPurchase
          (run exampleConfig lockedExample
             [View "viewer_2" 2000; Purchase "viewer_3" 3000; Release "viewer_2";
              View "viewer_3" 30999])
          exampleConfig "viewer_1" 30999) = true
  /\ p_soldPrice
       (applyPurchase
          (run exampleConfig lockedExample
             [View "viewer_2" 2000; Purchase "viewer_3" 3000; Release "viewer_2";
              View "viewer_3" 30999])
          exampleConfig "viewer_1" 30999) = currentPrice lockedExample.
Proof.
  assert (Hops : Forall (byOtherWithinLock "viewer_1" lockedExample)
                   [View "viewer_2" 2000; Purchase "viewer_3" 3000;
                    Release "viewer_2"; View "viewer_3" 30999]).
  { repeat constructor; cbn; discriminate. }
  split; [reflexivity | split; [exact Hops | split; [reflexivity |]]].
  destruct (lock_is_exclusive exampleConfig lockedExample "viewer_1" _
              lockedExample_reachable eq_refl Hops)
    as (_ & _ & _ & _ & _ & Hbuy).
  destruct (Hbuy 30999%Z eq_refl) as (Hok & Hprice & _).
  split; [exact Hok | exact Hprice].
Defined.

(** *** Waiters are served in arrival order *)

Lemma filter_absent (l : list string) (s : string) :
  ~ In s l -> filter (fun id => negb (String.eqb id s)) l = l.
Proof.
  induction l as [| x l IH]; intros Hs; [reflexivity |].
  cbn. destruct (String.eqb x s) eqn:E.
  - apply String.eqb_eq in E. subst x. exfalso. apply Hs. now left.
  - cbn. f_equal. apply IH. intros Hin. apply Hs. now right.
Qed.

(** X5: the queue is first in, first out.  One operation on a reachable
    state either leaves the queue alone, or appends one actor who was not
    waiting at its tail (and who does not get the lock), or removes its head,
    who becomes the holder of the lock, or empties it at the sale; it never
    reorders the waiters and never removes one from the middle. *)
Theorem queue_is_fifo (config : DropConfig) (st : DropState) (op : Op) :
  reachable config st ->
  let st' := step config st op in
  queue st' = queue st
  \/ (exists arrival,
         ~ In arrival (queue st)
         /\ queue st' = (queue st ++ [arrival])%list
         /\ activeViewerId st' <> Some arrival)
  \/ (exists head rest,
         queue st = head :: rest
         /\ queue st' = rest
         /\ activeViewerId st' = Some head)
  \/ (queue st' = [] /\ isSold st' = true).
Proof.
  intros Hr. cbv zeta.
  assert (Harrive : forall a newState,
            queue newState = enqueue (queue st) a ->
            activeViewerId newState <> Some a ->
            queue newState = queue st
            \/ (exists arrival,
                   ~ In arrival (queue st)
                   /\ queue newState = (queue st ++ [arrival])%list
                   /\ activeViewerId newState <> Some arrival)
            \/ (exists head rest,
                   queue st = head :: rest
                   /\ queue newState = rest
                   /\ activeViewerId newState = Some head)
            \/ (queue newState = [] /\ isSold newState = true)).
  { intros a newState Hq Hv. rewrite Hq. unfold enqueue, JS.push.
    destruct (JS.includes (queue st) a) eqn:E; [now left |].
    right; left. exists a. repeat split; [| exact Hv].
    intros Hin. apply includes_In in Hin. congruence. }
  destruct op as [viewerId now | viewerId | buyer now]; cbn [step].
  - unfold applyView.
    destruct (isSold st); [now left |].
    destruct (isLocked st now).
    + destruct (JS.strictEqNullable _ _) eqn:E; [now left |].
      apply (Harrive viewerId); [reflexivity |].
      now apply strictEqNullable_false.
    + destruct (queue st) as [| head rest] eqn:Hq.
      { left. cbn. now rewrite Hq. }
      destruct (String.eqb head viewerId) eqn:E; cbn [negb].
      * apply String.eqb_eq in E. subst head.
        right; right; left. exists viewerId, rest.
        split; [reflexivity | split; [| reflexivity]].
        cbn. rewrite Hq. cbn. rewrite String.eqb_refl. cbn. apply filter_absent.
        destruct (reachable_queueDiscipline config st Hr) as [Hnodup _].
        rewrite Hq in Hnodup. now inversion Hnodup.
      * apply (Harrive viewerId); [reflexivity | discriminate].
  - left. unfold releaseLock. now destruct (JS.strictEqNullable _ _).
  - unfold applyPurchase.
    destruct (isSold st); [now left |].
    destruct (lockedByOther st buyer now); [now left |].
    right; right; right. now split.
Qed.

(** The lock of [viewer_1] expired with [viewer_2] waiting: [viewer_2] is
    taken from the head of the queue. *)
Lemma queue_is_fifo_witness :
  reachable exampleConfig queuedExample
  /\ queue queuedExample = ["viewer_2"]
  /\ queue (step exampleConfig queuedExample (View "viewer_2" 40000)) = []
  /\ activeViewerId (step exampleConfig queuedExample (View "viewer_2" 40000))
     = Some "viewer_2".
Proof.
  split; [exact queuedExample_reachable | split; [reflexivity |]].
  destruct (queue_is_fifo exampleConfig queuedExample (View "viewer_2" 40000)
              queuedExample_reachable)
    as [Hsame | [(a & _ & Happ & _) | [(head & rest & Hq & Hrest & Hv) | [_ Hsold]]]].
  - discriminate Hsame.
  - discriminate Happ.
  - injection Hq as <- <-. split; [exact Hrest | exact Hv].
  - discriminate Hsold.
Defined.

(** *** Settlement and fees *)



Lemma applyView_charges (config : DropConfig) st viewerId now :
  let r := applyView st config viewerId now in
  (feeCharged r = 0 /\ totalViews (state r) = totalViews st)
  \/ (feeCharged r = viewingFee config
      /\ totalViews (state r) = (totalViews st + 1)%Z).
Proof.
  cbv zeta. unfold applyView.
  destruct (isSold st); [now left |].
  destruct (isLocked st now).
  - destruct (JS.strictEqNullable _ _); now left.
  - destruct (queue st) as [| head rest]; [now right |].
    destruct (negb _); [now left | now right].
Qed.

(** X7: viewers are charged once per counted view.  Along any sequence of
    operations from any state, the fees charged by the [applyView] calls add
    up to the viewing fee times the increase of [totalViews]; from
    [initDrop] that is the fee times [totalViews]. *)
Theorem fees_match_views (config : DropConfig) (ops : list Op) :
  (forall st,
      feesCharged config st ops
      == inject_Z (totalViews (run config st ops) - totalViews st)
         * viewingFee config)
  /\ feesCharged config (initDrop config) ops
     == inject_Z (totalViews (run config (initDrop config) ops))
        * viewingFee config.
Proof.
  assert (Hgen : forall st,
             feesCharged config st ops
             == inject_Z (totalViews (run config st ops) - totalViews st)
                * viewingFee config).
  { induction ops as [| op ops' IH]; intros st.
    - cbn. rewrite Z.sub_diag. change (inject_Z 0) with 0. ring.
    - cbn [feesCharged run fold_left]. fold (run config (step config st op) ops').
      rewrite IH.
      assert (Hstep : (match op with
                       | View viewerId now =>
                           feeCharged (applyView st config viewerId now)
                       | _ => 0
                       end)
                      == inject_Z (totalViews (step config st op) - totalViews st)
                         * viewingFee config).
      { destruct op as [viewerId now | viewerId | buyer now]; cbn [step].
        - destruct (applyView_charges config st viewerId now) as [[-> ->] | [-> ->]].
          + rewrite Z.sub_diag. change (inject_Z 0) with 0. ring.
          + replace (totalViews st + 1 - totalViews st)%Z with 1%Z by lia.
            change (inject_Z 1) with 1. ring.
        - unfold releaseLock. destruct (JS.strictEqNullable _ _); cbn;
            rewrite Z.sub_diag; change (inject_Z 0) with 0; ring.
        - unfold applyPurchase. destruct (isSold st); cbn;
            [| destruct (lockedByOther st buyer now); cbn];
            rewrite Z.sub_diag; change (inject_Z 0) with 0; ring. }
      rewrite Hstep, <- Qmult_plus_distr_l, <- inject_Z_plus.
      apply Qmult_comp; [| reflexivity].
      apply inject_Z_injective. lia. }
  split; [exact Hgen |].
  rewrite Hgen. cbn [initDrop totalViews]. now rewrite Z.sub_0_r.
Qed.

(** ** The request surface *)

Section MapFacts.

Context {V : Type}.

Lemma get_set_same (m : JSMap.t V) k v : JSMap.get (JSMap.set m k v) k = Some v.
Proof.
  induction m as [| [k' v'] m IH]; cbn.
  - now rewrite String.eqb_refl.
  - destruct (String.eqb k' k) eqn:E; cbn; now rewrite E.
Qed.

Lemma get_set_other (m : JSMap.t V) k k' v :
  k <> k' -> JSMap.get (JSMap.set m k v) k' = JSMap.get m k'.
Proof.
  intros Hne. induction m as [| [k0 v0] m IH]; cbn.
  - apply String.eqb_neq in Hne. now rewrite Hne.
  - destruct (String.eqb k0 k) eqn:E; cbn; [| now rewrite IH].
    apply String.eqb_eq in E. subst k0.
    apply String.eqb_neq in Hne. now rewrite Hne.
Qed.

Lemma get_Some_key (m : JSMap.t V) k v :
  JSMap.get m k = Some v -> In k (JSMap.keys m).
Proof.
  induction m as [| [k' v'] m IH]; cbn; [discriminate |].
  destruct (String.eqb k' k) eqn:E; [| auto].
  apply String.eqb_eq in E. auto.
Qed.

Lemma get_None_key (m : JSMap.t V) k :
  JSMap.get m k = None <-> ~ In k (JSMap.keys m).
Proof.
  induction m as [| [k' v'] m IH]; cbn; [tauto |].
  destruct (String.eqb k' k) eqn:E.
  - apply String.eqb_eq in E. split; [discriminate | tauto].
  - apply String.eqb_neq in E. rewrite IH. tauto.
Qed.

Lemma keys_set_present (m : JSMap.t V) k v :
  In k (JSMap.keys m) -> JSMap.keys (JSMap.set m k v) = JSMap.keys m.
Proof.
  induction m as [| [k' v'] m IH]; cbn; [contradiction |].
  destruct (String.eqb k' k) eqn:E; cbn; [reflexivity |].
  apply String.eqb_neq in E. intros [? | Hin]; [contradiction |].
  f_equal. now apply IH.
Qed.

Lemma keys_set (m : JSMap.t V) k v k' :
  In k' (JSMap.keys (JSMap.set m k v)) <-> In k' (JSMap.keys m) \/ k' = k.
Proof.
  unfold JSMap.keys. induction m as [| [k0 v0] m IH]; cbn.
  - intuition.
  - destruct (String.eqb k0 k) eqn:E; cbn.
    + apply String.eqb_eq in E. subst k0. intuition.
    + rewrite IH. tauto.
Qed.

Lemma keys_set_NoDup (m : JSMap.t V) k v :
  NoDup (JSMap.keys m) -> NoDup (JSMap.keys (JSMap.set m k v)).
Proof.
  induction m as [| [k' v'] m IH]; cbn; intros Hm.
  - repeat constructor. intros [].
  - inversion Hm as [| ? ? Hnot Hrest]; subst.
    destruct (String.eqb k' k) eqn:E; cbn; [exact Hm |].
    apply String.eqb_neq in E. constructor; [| now apply IH].
    change (~ In k' (JSMap.keys (JSMap.set m k v))).
    rewrite keys_set. intros [? | ?]; auto.
Qed.

(** Two maps with the same keys, in the same order and without repetition,
    that answer every [get] alike are the same map. *)
Lemma map_ext (m1 m2 : JSMap.t V) :
  JSMap.keys m1 = JSMap.keys m2 ->
  NoDup (JSMap.keys m1) ->
  (forall k, JSMap.get m1 k = JSMap.get m2 k) ->
  m1 = m2.
Proof.
  revert m2. induction m1 as [| [k v] m1 IH]; intros [| [k' v'] m2]; cbn;
    try discriminate; [reflexivity |].
  intros [= <- Hkeys] Hnodup Hget.
  inversion Hnodup as [| ? ? Hnot Hrest]; subst.
  pose proof (Hget k) as Hk. rewrite String.eqb_refl in Hk.
  injection Hk as <-. f_equal. apply IH; [exact Hkeys | exact Hrest |].
  intros k0. specialize (Hget k0).
  destruct (String.eqb k k0) eqn:E; [| exact Hget].
  apply String.eqb_eq in E. subst k0.
  assert (H1 : JSMap.get m1 k = None) by now apply get_None_key.
  assert (H2 : JSMap.get m2 k = None)
    by (apply get_None_key; unfold JSMap.keys in *; now rewrite <- Hkeys).
  now rewrite H1, H2.
Qed.

End MapFacts.

Section Loading.

Context {V : Type} (value : DropConfig -> V).

Lemma loadAll_cons config l (m : JSMap.t V) :
  loadAll value (config :: l) m
  = loadAll value l (JSMap.set m (cfg_productId config) (value config)).
Proof. reflexivity. Qed.

Lemma latest_cons k config l (x : option V) :
  latest value k (config :: l) x
  = latest value k l
      (if String.eqb (cfg_productId config) k then Some (value config) else x).
Proof. reflexivity. Qed.

Lemma get_loadAll l : forall m k,
  JSMap.get (loadAll value l m) k = latest value k l (JSMap.get m k).
Proof.
  induction l as [| config l IH]; intros m k; [reflexivity |].
  rewrite loadAll_cons, latest_cons, IH. f_equal.
  destruct (String.eqb (cfg_productId config) k) eqn:E.
  - apply String.eqb_eq in E. subst k. apply get_set_same.
  - apply String.eqb_neq in E. now apply get_set_other.
Qed.

Lemma latest_overrides k l : forall x y : option V,
  In k (map cfg_productId l) -> latest value k l x = latest value k l y.
Proof.
  induction l as [| config l IH]; intros x y Hin; [contradiction |].
  rewrite !latest_cons. destruct (String.eqb (cfg_productId config) k) eqn:E.
  - reflexivity.
  - apply IH. destruct Hin as [Hin | Hin]; [| exact Hin].
    apply String.eqb_neq in E. contradiction.
Qed.

Lemma latest_absent k l (x : option V) :
  ~ In k (map cfg_productId l) -> latest value k l x = x.
Proof.
  revert x. induction l as [| config l IH]; intros x Hin; [reflexivity |].
  rewrite latest_cons. destruct (String.eqb (cfg_productId config) k) eqn:E.
  - apply String.eqb_eq in E. exfalso. apply Hin. now left.
  - apply IH. intros H. apply Hin. now right.
Qed.

Lemma latest_from k l : forall (x : option V) v,
  latest value k l x = Some v ->
  x = Some v
  \/ exists config, In config l /\ cfg_productId config = k /\ v = value config.
Proof.
  induction l as [| config l IH]; intros x v H; [now left |].
  rewrite latest_cons in H. apply IH in H.
  destruct H as [H | (c & Hc & Hk & Hv)].
  - destruct (String.eqb (cfg_productId config) k) eqn:E; [| now left].
    apply String.eqb_eq in E. injection H as <-.
    right. exists config. repeat split; [now left | exact E].
  - right. exists c. repeat split; [now right | exact Hk | exact Hv].
Qed.

Lemma keys_loadAll l : forall (m : JSMap.t V) k,
  In k (JSMap.keys (loadAll value l m)) <->
  In k (JSMap.keys m) \/ In k (map cfg_productId l).
Proof.
  induction l as [| config l IH]; intros m k; [cbn; tauto |].
  rewrite loadAll_cons, IH, keys_set. cbn. intuition.
Qed.

Lemma keys_loadAll_present l : forall m : JSMap.t V,
  (forall k, In k (map cfg_productId l) -> In k (JSMap.keys m)) ->
  JSMap.keys (loadAll value l m) = JSMap.keys m.
Proof.
  induction l as [| config l IH]; intros m Hin; [reflexivity |].
  rewrite loadAll_cons, IH.
  - apply keys_set_present. apply Hin. now left.
  - intros k Hk. rewrite keys_set. left. apply Hin. now right.
Qed.

Lemma keys_loadAll_NoDup l : forall m : JSMap.t V,
  NoDup (JSMap.keys m) -> NoDup (JSMap.keys (loadAll value l m)).
Proof.
  induction l as [| config l IH]; intros m Hm; [exact Hm |].
  rewrite loadAll_cons. apply IH. now apply keys_set_NoDup.
Qed.

(** Loading the catalogue again over a map that already has all its keys
    gives the map loaded from scratch, whatever the values were. *)
Lemma loadAll_again l (m : JSMap.t V) :
  JSMap.keys m = JSMap.keys (loadAll value l []) ->
  loadAll value l m = loadAll value l [].
Proof.
  intros Hkeys.
  assert (Hall : forall k, In k (map cfg_productId l) -> In k (JSMap.keys m)).
  { intros k Hk. rewrite Hkeys. apply keys_loadAll. now right. }
  assert (Hnodup : NoDup (JSMap.keys (loadAll value l [])))
    by (apply keys_loadAll_NoDup; constructor).
  apply map_ext.
  - rewrite keys_loadAll_present by exact Hall. exact Hkeys.
  - rewrite keys_loadAll_present by exact Hall. now rewrite Hkeys.
  - intros k. rewrite !get_loadAll.
    destruct (in_dec string_dec k (map cfg_productId l)) as [Hin | Hout].
    + now apply latest_overrides.
    + rewrite !latest_absent by exact Hout. cbn.
      apply get_None_key. rewrite Hkeys, keys_loadAll. cbn. tauto.
Qed.

End Loading.

Section Api.

Variable productsData : list DropConfig.

Lemma fold_loadProduct l : forall s,
  fold_left loadProduct l s
  = {| db := loadAll initDrop l (db s);
       configs := loadAll (fun config => config) l (configs s) |}.
Proof.
  induction l as [| config l IH]; intros s; [now destruct s |].
  cbn [fold_left]. rewrite IH. reflexivity.
Qed.

Lemma db_initStore : db (initStore productsData) = loadAll initDrop productsData [].
Proof. unfold initStore. now rewrite fold_loadProduct. Qed.

Lemma configs_initStore :
  configs (initStore productsData) = loadAll (fun config => config) productsData [].
Proof. unfold initStore. now rewrite fold_loadProduct. Qed.

Lemma latest_initDrop k l : forall x : option DropConfig,
  latest initDrop k l (option_map initDrop x)
  = option_map initDrop (latest (fun config => config) k l x).
Proof.
  induction l as [| config l IH]; intros x; [reflexivity |].
  rewrite !latest_cons, <- IH.
  now destruct (String.eqb (cfg_productId config) k).
Qed.

Lemma reachable_productId config st :
  reachable config st -> productId st = cfg_productId config.
Proof.
  induction 1 as [| st op _ IH]; [reflexivity |].
  rewrite <- IH. destruct op as [viewerId now | viewerId | buyer now]; cbn [step].
  - unfold applyView.
    destruct (isSold st); [reflexivity |].
    destruct (isLocked st now).
    + now destruct (JS.strictEqNullable _ _).
    + destruct (queue st) as [| head rest]; [reflexivity |].
      now destruct (negb _).
  - unfold releaseLock. now destruct (JS.strictEqNullable _ _).
  - unfold applyPurchase.
    destruct (isSold st); [reflexivity |].
    now destruct (lockedByOther st buyer now).
Qed.

Lemma initStore_invariant : storeInvariant productsData (initStore productsData).
Proof.
  split; [reflexivity | split; [reflexivity |]].
  intros pid st. rewrite db_initStore, configs_initStore, !get_loadAll. cbn.
  change (@None DropState) with (option_map initDrop None).
  rewrite latest_initDrop.
  destruct (latest (fun config => config) pid productsData None) as [config |];
    [| discriminate].
  intros [= <-]. exists config. split; [reflexivity | constructor].
Qed.

Lemma set_invariant s pid st config st' :
  storeInvariant productsData s ->
  JSMap.get (db s) pid = Some st ->
  JSMap.get (configs s) pid = Some config ->
  (reachable config st -> reachable config st') ->
  storeInvariant productsData
    {| db := JSMap.set (db s) pid st'; configs := configs s |}.
Proof.
  intros (Hcfg & Hkeys & Hstates) Hst Hconfig Hstep.
  split; [exact Hcfg | split].
  - cbn [db]. rewrite keys_set_present; [exact Hkeys |].
    now apply get_Some_key with st.
  - intros pid' st0. cbn [db configs].
    destruct (string_dec pid pid') as [<- | Hne].
    + rewrite get_set_same. intros [= <-]. exists config. split; [exact Hconfig |].
      apply Hstep. destruct (Hstates pid st Hst) as (c & Hc & Hr). congruence.
    + rewrite get_set_other by exact Hne. apply Hstates.
Qed.

Lemma resetDb_initStore s :
  storeInvariant productsData s -> resetDb productsData s = initStore productsData.
Proof.
  intros (Hcfg & Hkeys & _). unfold resetDb.
  change (fold_left _ productsData (db s)) with (loadAll initDrop productsData (db s)).
  rewrite loadAll_again by (now rewrite Hkeys, db_initStore).
  rewrite Hcfg, <- db_initStore. now destruct (initStore productsData).
Qed.

Lemma serve_invariant s req :
  storeInvariant productsData s ->
  storeInvariant productsData (serve productsData s req).
Proof.
  intros Hinv. destruct req as [pid | pid v now | pid v | pid b now |]; cbn [serve].
  - exact Hinv.
  - unfold postView.
    destruct (JSMap.get (db s) pid) as [st |] eqn:Hst; [| exact Hinv].
    destruct (JSMap.get (configs s) pid) as [config |] eqn:Hc; [| exact Hinv].
    cbn [snd]. apply (set_invariant s pid st config); auto.
    intros Hr. exact (reach_step config st (View v now) Hr).
  - unfold postCancel.
    destruct (JSMap.get (db s) pid) as [st |] eqn:Hst; [| exact Hinv].
    destruct Hinv as (Hcfg & Hkeys & Hstates).
    destruct (Hstates pid st Hst) as (config & Hc & Hr).
    cbn [snd]. apply (set_invariant s pid st config); auto.
    + now split.
    + intros Hr'. exact (reach_step config st (Release v) Hr').
  - unfold postBuy.
    destruct (JSMap.get (db s) pid) as [st |] eqn:Hst; [| exact Hinv].
    destruct (JSMap.get (configs s) pid) as [config |] eqn:Hc; [| exact Hinv].
    cbn [snd]. destruct (p_success _); [| exact Hinv].
    apply (set_invariant s pid st config); auto.
    intros Hr. exact (reach_step config st (Purchase b now) Hr).
  - rewrite resetDb_initStore by exact Hinv. apply initStore_invariant.
Qed.

Lemma served_invariant s :
  served productsData s -> storeInvariant productsData s.
Proof.
  induction 1 as [| s req _ IH];
    [apply initStore_invariant | now apply serve_invariant].
Qed.

Lemma stored_config s pid config :
  served productsData s ->
  JSMap.get (configs s) pid = Some config ->
  In config productsData /\ cfg_productId config = pid.
Proof.
  intros Hs. destruct (served_invariant s Hs) as (Hcfg & _).
  rewrite Hcfg, configs_initStore, get_loadAll. cbn. intros H.
  apply latest_from in H. destruct H as [H | (c & Hin & Hid & ->)];
    [discriminate | auto].
Qed.

Lemma known_product s pid :
  served productsData s ->
  In pid (map cfg_productId productsData) ->
  exists st config,
    JSMap.get (db s) pid = Some st /\ JSMap.get (configs s) pid = Some config.
Proof.
  intros Hs Hin. destruct (served_invariant s Hs) as (Hcfg & Hkeys & Hstates).
  destruct (JSMap.get (db s) pid) as [st |] eqn:Hst.
  - destruct (Hstates pid st Hst) as (config & Hc & _). now exists st, config.
  - exfalso. apply get_None_key in Hst. apply Hst.
    rewrite Hkeys, db_initStore. apply keys_loadAll. now right.
Qed.

Lemma unknown_product s pid :
  served productsData s ->
  ~ In pid (map cfg_productId productsData) ->
  JSMap.get (db s) pid = None.
Proof.
  intros Hs Hout. destruct (served_invariant s Hs) as (_ & Hkeys & _).
  apply get_None_key. rewrite Hkeys, db_initStore, keys_loadAll. cbn. tauto.
Qed.

End Api.

Lemma viewedStore_served : served exampleCatalogue viewedStore.
Proof.
  exact (served_step exampleCatalogue (initStore exampleCatalogue)
           (PostView "iphone17" "viewer_1" 1000) (served_init exampleCatalogue)).
Defined.

(** X8: whatever calls were made, a state held in the API's map is a state
    of the engine.  It is stored under its own product id, the configuration
    stored under the same id is an entry of the catalogue with that id, and
    the state is reachable from [initDrop] of that configuration. *)
Theorem store_holds_engine_states (productsData : list DropConfig)
    (s : Store) (pid : string) (st : DropState) :
  served productsData s ->
  JSMap.get (db s) pid = Some st ->
  exists config,
    JSMap.get (configs s) pid = Some config
    /\ In config productsData
    /\ cfg_productId config = pid
    /\ productId st = pid
    /\ reachable config st.
Proof.
  intros Hs Hst.
  destruct (served_invariant productsData s Hs) as (_ & _ & Hstates).
  destruct (Hstates pid st Hst) as (config & Hc & Hr).
  destruct (stored_config productsData s pid config Hs Hc) as [Hin Hid].
  exists config. repeat split; auto.
  rewrite <- Hid. now apply reachable_productId.
Qed.

Lemma store_holds_engine_states_witness :
  served exampleCatalogue viewedStore
  /\ JSMap.get (db viewedStore) "iphone17" = Some lockedExample
  /\ exists config,
       JSMap.get (configs viewedStore) "iphone17" = Some config
       /\ In config exampleCatalogue
       /\ cfg_productId config = "iphone17"
       /\ productId lockedExample = "iphone17"
       /\ reachable config lockedExample.
Proof.
  split; [exact viewedStore_served | split; [reflexivity |]].
  exact (store_holds_engine_states exampleCatalogue viewedStore "iphone17"
           lockedExample viewedStore_served eq_refl).
Defined.

(** X9: a product id is served exactly when the catalogue has it.  After any
    calls, every operation on an id of the catalogue returns the engine's
    answer for the stored state and configuration, and every operation on
    any other id throws [Product <id> not found] and leaves both maps as they
    were. *)
Theorem unknown_product_is_rejected (productsData : list DropConfig)
    (s : Store) (pid : string) :
  served productsData s ->
  (In pid (map cfg_productId productsData) ->
   exists st config,
     JSMap.get (db s) pid = Some st
     /\ JSMap.get (configs s) pid = Some config
     /\ getStatus s pid = Returned st
     /\ (forall viewerId now,
            fst (postView s pid viewerId now)
            = Returned (applyView st config viewerId now))
     /\ (forall viewerId,
            fst (postCancel s pid viewerId) = Returned (releaseLock st viewerId))
     /\ (forall buyerId now,
            fst (postBuy s pid buyerId now)
            = Returned (applyPurchase st config buyerId now)))
  /\ (~ In pid (map cfg_productId productsData) ->
      getStatus s pid = Thrown (notFound pid)
      /\ (forall viewerId now,
             postView s pid viewerId now = (Thrown (notFound pid), s))
      /\ (forall viewerId,
             postCancel s pid viewerId = (Thrown (notFound pid), s))
      /\ (forall buyerId now,
             postBuy s pid buyerId now = (Thrown (notFound pid), s))).
Proof.
  intros Hs. split.
  - intros Hin.
    destruct (known_product productsData s pid Hs Hin) as (st & config & Hst & Hc).
    exists st, config. unfold getStatus, postView, postCancel, postBuy.
    rewrite Hst, Hc. cbn. repeat split.
  - intros Hout. pose proof (unknown_product productsData s pid Hs Hout) as Hst.
    unfold getStatus, postView, postCancel, postBuy. rewrite Hst. repeat split.
Qed.

Lemma unknown_product_is_rejected_witness :
  served exampleCatalogue viewedStore
  /\ ~ In "macbookairm4" (map cfg_productId exampleCatalogue)
  /\ postView viewedStore "macbookairm4" "viewer_2" 2000
     = (Thrown "Product macbookairm4 not found", viewedStore)
  /\ In "ps5slim" (map cfg_productId exampleCatalogue)
  /\ exists st, getStatus viewedStore "ps5slim" = Returned st.
Proof.
  assert (Hout : ~ In "macbookairm4" (map cfg_productId exampleCatalogue))
    by (cbn; intros [H | [H | []]]; discriminate H).
  assert (Hin : In "ps5slim" (map cfg_productId exampleCatalogue))
    by (cbn; auto).
  split; [exact viewedStore_served | split; [exact Hout |]].
  destruct (unknown_product_is_rejected exampleCatalogue viewedStore
              "macbookairm4" viewedStore_served) as [_ Hunknown].
  destruct (Hunknown Hout) as (_ & Hview & _).
  split; [exact (Hview "viewer_2" 2000%Z) | split; [exact Hin |]].
  destruct (unknown_product_is_rejected exampleCatalogue viewedStore
              "ps5slim" viewedStore_served) as [Hknown _].
  destruct (Hknown Hin) as (st & _ & _ & _ & Hstatus & _).
  now exists st.
Defined.

(** X10: a call touches one product.  Whatever the maps hold, a request
    addressed to one product id leaves the state stored under every other
    id as it was, and no request ever changes the stored configurations. *)
Theorem requests_touch_one_product (productsData : list DropConfig)
    (s : Store) (req : Request) :
  configs (serve productsData s req) = configs s
  /\ forall pid other,
       target req = Some pid ->
       other <> pid ->
       JSMap.get (db (serve productsData s req)) other = JSMap.get (db s) other.
Proof.
  split.
  - destruct req as [pid | pid v now | pid v | pid b now |]; cbn [serve];
      try reflexivity.
    + unfold postView.
      destruct (JSMap.get (db s) pid); [| reflexivity].
      now destruct (JSMap.get (configs s) pid).
    + unfold postCancel. now destruct (JSMap.get (db s) pid).
    + unfold postBuy.
      destruct (JSMap.get (db s) pid); [| reflexivity].
      destruct (JSMap.get (configs s) pid); [| reflexivity].
      cbn. now destruct (p_success _).
  - intros pid other Htarget Hne.
    destruct req as [pid' | pid' v now | pid' v | pid' b now |];
      cbn in Htarget; try discriminate; injection Htarget as ->; cbn [serve].
    + reflexivity.
    + unfold postView.
      destruct (JSMap.get (db s) pid); [| reflexivity].
      destruct (JSMap.get (configs s) pid); [| reflexivity].
      cbn. apply get_set_other. congruence.
    + unfold postCancel.
      destruct (JSMap.get (db s) pid); [| reflexivity].
      cbn. apply get_set_other. congruence.
    + unfold postBuy.
      destruct (JSMap.get (db s) pid); [| reflexivity].
      destruct (JSMap.get (configs s) pid); [| reflexivity].
      cbn. destruct (p_success _); [| reflexivity].
      cbn. apply get_set_other. congruence.
Qed.

Lemma requests_touch_one_product_witness :
  target (PostBuy "iphone17" "viewer_1" 2000) = Some "iphone17"
  /\ "ps5slim" <> "iphone17"
  /\ JSMap.get
       (db (serve exampleCatalogue viewedStore (PostBuy "iphone17" "viewer_1" 2000)))
       "ps5slim"
     = JSMap.get (db viewedStore) "ps5slim".
Proof.
  assert (Hne : "ps5slim" <> "iphone17") by discriminate.
  split; [reflexivity | split; [exact Hne |]].
  exact (proj2 (requests_touch_one_product exampleCatalogue viewedStore
                  (PostBuy "iphone17" "viewer_1" 2000))
           "iphone17" "ps5slim" eq_refl Hne).
Defined.

(** X11: [resetDb] undoes everything.  After any sequence of calls, views,
    sales and earlier resets included, [resetDb] leaves exactly the maps the
    module started with. *)
Theorem resetDb_restores_initial_store (productsData : list DropConfig)
    (s : Store) :
  served productsData s ->
  resetDb productsData s = initStore productsData.
Proof.
  intros Hs. apply resetDb_initStore. now apply served_invariant.
Qed.

Lemma resetDb_restores_initial_store_witness :
  served exampleCatalogue viewedStore
  /\ viewedStore <> initStore exampleCatalogue
  /\ resetDb exampleCatalogue viewedStore = initStore exampleCatalogue.
Proof.
  split; [exact viewedStore_served | split].
  - intros H. apply (f_equal (fun s => JSMap.get (db s) "iphone17")) in H.
    vm_compute in H. discriminate H.
  - exact (resetDb_restores_initial_store exampleCatalogue viewedStore
             viewedStore_served).
Defined.

Lemma applyPurchase_failed_state st config buyer now :
  p_success (applyPurchase st config buyer now) = false ->
  p_state (applyPurchase st config buyer now) = st.
Proof.
  unfold applyPurchase. destruct (isSold st); [reflexivity |].
  destruct (lockedByOther st buyer now); [reflexivity | discriminate].
Qed.

(** X12: the map always holds the state a call reported.  After [postView],
    [postCancel] or [postBuy] returns, [getStatus] for the same product
    returns the state carried by that result; this holds for a failed
    [postBuy] too, although it writes nothing, because a failed purchase
    reports the state it was given. *)
Theorem getStatus_reads_last_result (s : Store) (pid : string) :
  (forall viewerId now r,
      fst (postView s pid viewerId now) = Returned r ->
      getStatus (snd (postView s pid viewerId now)) pid = Returned (state r))
  /\ (forall viewerId st',
         fst (postCancel s pid viewerId) = Returned st' ->
         getStatus (snd (postCancel s pid viewerId)) pid = Returned st')
  /\ (forall buyerId now r,
         fst (postBuy s pid buyerId now) = Returned r ->
         getStatus (snd (postBuy s pid buyerId now)) pid = Returned (p_state r)).
Proof.
  unfold getStatus, postView, postCancel, postBuy.
  destruct (JSMap.get (db s) pid) as [st |] eqn:Hst;
    [| repeat split; intros; discriminate].
  split; [| split].
  - intros viewerId now r.
    destruct (JSMap.get (configs s) pid); [| discriminate].
    cbn. intros [= <-]. now rewrite get_set_same.
  - intros viewerId st'. cbn. intros [= <-]. now rewrite get_set_same.
  - intros buyerId now r.
    destruct (JSMap.get (configs s) pid) as [config |]; [| discriminate].
    cbn [fst snd]. intros [= <-].
    destruct (p_success (applyPurchase st config buyerId now)) eqn:Hok.
    + cbn. now rewrite get_set_same.
    + rewrite Hst. now rewrite applyPurchase_failed_state.
Qed.

Lemma getStatus_reads_last_result_witness :
  fst (postBuy viewedStore "iphone17" "viewer_2" 2000)
  = Returned (applyPurchase lockedExample exampleConfig "viewer_2" 2000)
  /\ p_success (applyPurchase lockedExample exampleConfig "viewer_2" 2000) = false
  /\ getStatus (snd (postBuy viewedStore "iphone17" "viewer_2" 2000)) "iphone17"
     = Returned (p_state (applyPurchase lockedExample exampleConfig "viewer_2" 2000)).
Proof.
  split; [reflexivity | split; [reflexivity |]].
  exact (proj2 (proj2 (getStatus_reads_last_result viewedStore "iphone17"))
           "viewer_2" 2000%Z _ eq_refl).
Defined.

(** ** The scripted simulation *)

Lemma isLocked_after_grant st config viewerId q t0 t :
  viewerId <> "" ->
  (t0 + LOCK_DURATION <> 0)%Z ->
  (t < t0 + LOCK_DURATION)%Z ->
  isLocked (withQueue (state (grantLock st config viewerId t0)) q) t = true.
Proof.
  intros Hv He Ht. apply isLocked_iff.
  exists viewerId, (t0 + LOCK_DURATION)%Z. cbn. auto.
Qed.

(** The views of the loop that follow a grant inside its lock window only
    add their callers to the queue. *)
Lemma views_behind_grant config (clock : nat -> Z) holder t0 (l : list nat) :
  holder <> "" ->
  (t0 + LOCK_DURATION <> 0)%Z ->
  Forall (fun i => viewerName i <> holder
                   /\ (clock (i - 1)%nat < t0 + LOCK_DURATION)%Z) l ->
  forall q,
    fold_left
      (fun st i => state (applyView st config (viewerName i) (clock (i - 1)%nat)))
      l (withQueue (state (grantLock (initDrop config) config holder t0)) q)
    = withQueue (state (grantLock (initDrop config) config holder t0))
        (fold_left (fun q i => enqueue q (viewerName i)) l q).
Proof.
  intros Hholder Hexp. induction 1 as [| i l [Hne Hlt] _ IH]; intros q;
    [reflexivity |].
  cbn [fold_left]. rewrite applyView_behind_lock.
  - cbn [state queuedResult]. rewrite withQueue_twice. apply IH.
  - reflexivity.
  - now apply isLocked_after_grant.
  - cbn [activeViewerId withQueue state grantLock]. intros [= E]. now apply Hne.
Qed.

Lemma loop_names :
  forallb (fun i => negb (String.eqb (viewerName i) "viewer_1")) (seq 2 9) = true
  /\ fold_left (fun q i => enqueue q (viewerName i)) (seq 2 9) []
     = ["viewer_2"; "viewer_3"; "viewer_4"; "viewer_5"; "viewer_6";
        "viewer_7"; "viewer_8"; "viewer_9"; "viewer_10"].
Proof. split; vm_compute; reflexivity. Qed.

Lemma applyPurchase_behind_lock st config buyer now :
  isSold st = false ->
  isLocked st now = true ->
  activeViewerId st <> Some buyer ->
  applyPurchase st config buyer now
  = {| p_success := false; p_soldPrice := 0;
       p_totalSupplierRevenue := 0; p_totalQomoRevenue := 0;
       p_state := st;
       p_error := Some "Product is currently locked by another user." |}.
Proof.
  intros Hs Hl Hv. unfold applyPurchase. rewrite Hs.
  now rewrite (proj2 (lockedByOther_true buyer now st) (conj Hl Hv)).
Qed.

Lemma simulateProduct_eq config clock :
  simulateProduct config clock
  = let state1 := simulatedViews config clock in
    let result := applyPurchase state1 config "buyer_WINNER" (clock 10%nat) in
    {| console := console (simulateProduct config clock);
       afterViews := state1;
       purchaseResult := result;
       finalState := p_state result |}.
Proof. reflexivity. Qed.

Lemma first_view_grants config viewerId now :
  state (applyView (initDrop config) config viewerId now)
  = withQueue (state (grantLock (initDrop config) config viewerId now)) [].
Proof. reflexivity. Qed.

(** Inside the lock window of the first view the loop leaves [viewer_1]
    holding the lock and the nine others queued. *)
Lemma simulatedViews_within_window config clock :
  (clock 0%nat + LOCK_DURATION <> 0)%Z ->
  (forall n, (1 <= n <= 10)%nat -> (clock n < clock 0%nat + LOCK_DURATION)%Z) ->
  simulatedViews config clock
  = withQueue (state (grantLock (initDrop config) config "viewer_1" (clock 0%nat)))
      ["viewer_2"; "viewer_3"; "viewer_4"; "viewer_5"; "viewer_6";
       "viewer_7"; "viewer_8"; "viewer_9"; "viewer_10"].
Proof.
  intros Hexp Hwin. destruct loop_names as [Hnames Hqueue].
  unfold simulatedViews.
  replace (seq 1 10) with ([1%nat] ++ seq 2 9)%list by reflexivity.
  rewrite fold_left_app.
  replace (fold_left
             (fun st i =>
                state (applyView st config (viewerName i) (clock (i - 1)%nat)))
             [1%nat] (initDrop config))
    with (state (applyView (initDrop config) config "viewer_1" (clock 0%nat)))
    by reflexivity.
  rewrite first_view_grants.
  rewrite views_behind_grant;
    [now rewrite Hqueue | discriminate | exact Hexp |].
  apply Forall_forall. intros i Hi.
  rewrite forallb_forall in Hnames. specialize (Hnames i Hi).
  apply negb_true_iff, String.eqb_neq in Hnames.
  split; [exact Hnames |]. apply in_seq in Hi. apply Hwin. lia.
Qed.

(** X13: run faster than the lock lasts, the simulation charges one view and
    sells nothing.  When the eleven clock readings of one product fall inside
    the lock window opened by the first view, only [viewer_1] is charged and
    drops the price, [viewer_2] to [viewer_10] are queued behind its lock in
    order, and the purchase by [buyer_WINNER] is refused as locked by another
    user, so the run ends unsold and reports the failure on the error
    console. *)
Theorem simulation_charges_once_sells_nothing (config : DropConfig)
    (clock : nat -> Z) :
  (clock 0%nat + LOCK_DURATION <> 0)%Z ->
  (forall n, (1 <= n <= 10)%nat -> (clock n < clock 0%nat + LOCK_DURATION)%Z) ->
  let sim := simulateProduct config clock in
  totalViews (afterViews sim) = 1%Z
  /\ currentPrice (afterViews sim) = nextPrice (initDrop config) config
  /\ activeViewerId (afterViews sim) = Some "viewer_1"
  /\ queue (afterViews sim)
     = ["viewer_2"; "viewer_3"; "viewer_4"; "viewer_5"; "viewer_6";
        "viewer_7"; "viewer_8"; "viewer_9"; "viewer_10"]
  /\ p_success (purchaseResult sim) = false
  /\ p_error (purchaseResult sim)
     = Some "Product is currently locked by another user."
  /\ isSold (finalState sim) = false
  /\ In (ConsoleError
           [Text "Purchase failed:";
            Message (Some "Product is currently locked by another user.")])
        (console sim).
Proof.
  intros Hexp Hwin.
  pose proof (simulatedViews_within_window config clock Hexp Hwin) as Hviews.
  assert (Hbuy : applyPurchase (simulatedViews config clock) config
                   "buyer_WINNER" (clock 10%nat)
                 = {| p_success := false; p_soldPrice := 0;
                      p_totalSupplierRevenue := 0; p_totalQomoRevenue := 0;
                      p_state := simulatedViews config clock;
                      p_error :=
                        Some "Product is currently locked by another user." |}).
  { apply applyPurchase_behind_lock; rewrite Hviews.
    - reflexivity.
    - apply isLocked_after_grant; [discriminate | exact Hexp | apply Hwin; lia].
    - discriminate. }
  assert (Hlines : console (simulateProduct config clock)
                   = (firstn 10 (console (simulateProduct config clock))
                      ++ (if p_success (applyPurchase (simulatedViews config clock)
                                          config "buyer_WINNER" (clock 10%nat))
                          then skipn 10 (console (simulateProduct config clock))
                          else [ConsoleError
                                  [Text "Purchase failed:";
                                   Message
                                     (p_error
                                        (applyPurchase (simulatedViews config clock)
                                           config "buyer_WINNER"
                                           (clock 10%nat)))]]))%list).
  { unfold simulateProduct. cbv zeta. cbn [console firstn skipn app].
    now destruct (p_success _). }
  cbv zeta. rewrite Hlines. rewrite simulateProduct_eq. cbv zeta.
  cbn [afterViews purchaseResult finalState].
  rewrite Hbuy. cbn [p_success p_error p_state]. rewrite Hviews.
  cbn [withQueue totalViews currentPrice activeViewerId queue isSold state grantLock].
  repeat match goal with |- _ /\ _ => split end; try reflexivity.
  apply in_or_app. right. now left.
Qed.

(** A run that takes one millisecond per clock reading. *)
Lemma simulation_charges_once_sells_nothing_witness :
  (tickingClock 1000 0 + LOCK_DURATION <> 0)%Z
  /\ totalViews (afterViews (simulateProduct exampleConfig (tickingClock 1000)))
     = 1%Z
  /\ p_success (purchaseResult (simulateProduct exampleConfig (tickingClock 1000)))
     = false.
Proof.
  assert (Hexp : (tickingClock 1000 0 + LOCK_DURATION <> 0)%Z) by discriminate.
  assert (Hwin : forall n, (1 <= n <= 10)%nat ->
            (tickingClock 1000 n < tickingClock 1000 0 + LOCK_DURATION)%Z)
    by (intros n Hn; unfold tickingClock, LOCK_DURATION; lia).
  destruct (simulation_charges_once_sells_nothing exampleConfig
              (tickingClock 1000) Hexp Hwin)
    as (Hviews & _ & _ & _ & Hfail & _).
  split; [exact Hexp | split; [exact Hviews | exact Hfail]].
Defined.

Lemma simulatedPurchase_within_window config clock :
  (clock 0%nat + LOCK_DURATION <> 0)%Z ->
  (forall n, (1 <= n <= 10)%nat -> (clock n < clock 0%nat + LOCK_DURATION)%Z) ->
  applyPurchase (simulatedViews config clock) config "buyer_WINNER" (clock 10%nat)
  = {| p_success := false; p_soldPrice := 0;
       p_totalSupplierRevenue := 0; p_totalQomoRevenue := 0;
       p_state := simulatedViews config clock;
       p_error := Some "Product is currently locked by another user." |}.
Proof.
  intros Hexp Hwin.
  pose proof (simulatedViews_within_window config clock Hexp Hwin) as Hviews.
  apply applyPurchase_behind_lock; rewrite Hviews.
  - reflexivity.
  - apply isLocked_after_grant; [discriminate | exact Hexp | apply Hwin; lia].
  - discriminate.
Qed.

Lemma errors_of_product config clock :
  (clock 0%nat + LOCK_DURATION <> 0)%Z ->
  (forall n, (1 <= n <= 10)%nat -> (clock n < clock 0%nat + LOCK_DURATION)%Z) ->
  filter isError (console (simulateProduct config clock))
  = [ConsoleError
       [Text "Purchase failed:";
        Message (Some "Product is currently locked by another user.")]].
Proof.
  intros Hexp Hwin. unfold simulateProduct. cbv zeta. cbn [console].
  rewrite (simulatedPurchase_within_window config clock Hexp Hwin).
  reflexivity.
Qed.

Lemma errors_of_products products : forall clock,
  fasterThanLock products clock ->
  filter isError (simulateAll products clock)
  = repeat
      (ConsoleError
         [Text "Purchase failed:";
          Message (Some "Product is currently locked by another user.")])
      (length products).
Proof.
  induction products as [| config rest IH]; intros clock Hfast; [reflexivity |].
  cbn [simulateAll length repeat]. rewrite filter_app, IH.
  - rewrite errors_of_product; [reflexivity | |].
    + exact (proj1 (Hfast 0%nat ltac:(cbn; lia))).
    + intros n Hn. exact (proj2 (Hfast 0%nat ltac:(cbn; lia)) n Hn).
  - intros j Hj. cbn in Hfast.
    destruct (Hfast (S j) ltac:(cbn; lia)) as [Hexp Hwin].
    replace (11 * j + 11)%nat with (11 * S j)%nat by lia.
    split; [exact Hexp |].
    intros n Hn.
    replace (11 * j + n + 11)%nat with (11 * S j + n)%nat by lia.
    now apply Hwin.
Qed.

(** X19: a whole simulation run that is faster than the lock sells nothing.
    When every product's clock readings fall inside the lock window of its
    first view, [runSimulation] writes to the error console exactly one
    [Purchase failed:] line per product, each with the locked-by-another
    message: no product of the catalogue is sold. *)
Theorem simulation_run_sells_nothing (productsData : list DropConfig)
    (clock : nat -> Z) :
  fasterThanLock productsData clock ->
  filter isError (runSimulation productsData clock)
  = repeat
      (ConsoleError
         [Text "Purchase failed:";
          Message (Some "Product is currently locked by another user.")])
      (length productsData).
Proof.
  intros Hfast. unfold runSimulation.
  rewrite !filter_app, errors_of_products by exact Hfast.
  cbn. now rewrite app_nil_r.
Qed.

Lemma tickingClock_fasterThanLock :
  fasterThanLock exampleCatalogue (tickingClock 1000).
Proof.
  intros j Hj. unfold tickingClock, LOCK_DURATION. split; [lia |].
  intros n Hn. lia.
Defined.

Lemma simulation_run_sells_nothing_witness :
  fasterThanLock exampleCatalogue (tickingClock 1000)
  /\ length (filter isError (runSimulation exampleCatalogue (tickingClock 1000)))
     = 2%nat.
Proof.
  split; [exact tickingClock_fasterThanLock |].
  rewrite (simulation_run_sells_nothing exampleCatalogue (tickingClock 1000)
             tickingClock_fasterThanLock).
  reflexivity.
Defined.

(** ** Citations of the price analysis *)

Section Citations.

Lemma findIndexFrom_app (p : Source -> bool) (seen rest : list Source) : forall i,
  JSArray.findIndexFrom p i (seen ++ rest)
  = (if existsb p seen
     then JSArray.findIndexFrom p i seen
     else JSArray.findIndexFrom p (i + Z.of_nat (length seen)) rest).
Proof.
  induction seen as [| x seen IH]; intros i; cbn.
  - now rewrite Z.add_0_r.
  - destruct (p x); cbn; [reflexivity |].
    rewrite IH. destruct (existsb p seen); [reflexivity |].
    f_equal. lia.
Qed.

Lemma findIndexFrom_found (p : Source -> bool) (seen : list Source) : forall i,
  existsb p seen = true ->
  (i <= JSArray.findIndexFrom p i seen < i + Z.of_nat (length seen))%Z.
Proof.
  induction seen as [| x seen IH]; intros i; cbn; [discriminate |].
  destruct (p x); cbn; [lia |].
  intros H. specialize (IH (i + 1)%Z H). lia.
Qed.

(** The callback of [uniqueSources] keeps the element at the end of [seen]
    exactly when no earlier element has its [uri]. *)
Lemma first_occurrence_test (seen rest : list Source) (v : Source) :
  Z.eqb (JSArray.findIndex (fun t => String.eqb (uri t) (uri v))
           (seen ++ v :: rest))
        (Z.of_nat (length seen))
  = negb (existsb (fun t => String.eqb (uri t) (uri v)) seen).
Proof.
  unfold JSArray.findIndex. rewrite findIndexFrom_app.
  destruct (existsb _ seen) eqn:E; cbn [negb].
  - apply Z.eqb_neq.
    pose proof (findIndexFrom_found _ seen 0%Z E). lia.
  - cbn. rewrite String.eqb_refl. apply Z.eqb_refl.
Qed.

Lemma filterFrom_keepNew (rest : list Source) : forall seen,
  JSArray.filterFrom
    (fun v i a => Z.eqb (JSArray.findIndex (fun t => String.eqb (uri t) (uri v)) a) i)
    (seen ++ rest) (Z.of_nat (length seen)) rest
  = keepNew seen rest.
Proof.
  induction rest as [| v rest IH]; intros seen; [reflexivity |].
  cbn [JSArray.filterFrom keepNew]. rewrite first_occurrence_test.
  specialize (IH (seen ++ [v])%list).
  rewrite <- app_assoc, length_app, Nat2Z.inj_add in IH. cbn in IH.
  destruct (existsb _ seen); cbn [negb]; now rewrite IH.
Qed.

Lemma uniqueSources_keepNew sources : uniqueSources sources = keepNew [] sources.
Proof. exact (filterFrom_keepNew sources []). Qed.

Lemma keepNew_In rest : forall seen s,
  In s (keepNew seen rest) ->
  In s rest /\ existsb (fun t => String.eqb (uri t) (uri s)) seen = false.
Proof.
  induction rest as [| v rest IH]; intros seen s; cbn; [contradiction |].
  destruct (existsb (fun t => String.eqb (uri t) (uri v)) seen) eqn:E.
  - intros H. apply IH in H. destruct H as [Hin Hnew].
    rewrite existsb_app in Hnew. apply orb_false_iff in Hnew. tauto.
  - intros [<- | H]; [tauto |].
    apply IH in H. destruct H as [Hin Hnew].
    rewrite existsb_app in Hnew. apply orb_false_iff in Hnew. tauto.
Qed.

Lemma keepNew_NoDup rest : forall seen, NoDup (map uri (keepNew seen rest)).
Proof.
  induction rest as [| v rest IH]; intros seen; cbn; [constructor |].
  destruct (existsb _ seen); [apply IH |].
  cbn. constructor; [| apply IH].
  intros Hin. apply in_map_iff in Hin. destruct Hin as (s & Huri & Hs).
  apply keepNew_In in Hs. destruct Hs as [_ Hnew].
  rewrite existsb_app in Hnew. apply orb_false_iff in Hnew.
  destruct Hnew as [_ Hnew]. cbn in Hnew.
  rewrite orb_false_r in Hnew. apply String.eqb_neq in Hnew. congruence.
Qed.

Lemma keepNew_find u rest : forall seen,
  find (fun t => String.eqb (uri t) u) (keepNew seen rest)
  = if existsb (fun t => String.eqb (uri t) u) seen then None
    else find (fun t => String.eqb (uri t) u) rest.
Proof.
  induction rest as [| v rest IH]; intros seen; cbn.
  - now destruct (existsb _ seen).
  - destruct (String.eqb (uri v) u) eqn:Ev.
    + apply String.eqb_eq in Ev. subst u.
      destruct (existsb (fun t => String.eqb (uri t) (uri v)) seen) eqn:E.
      * rewrite IH, existsb_app, E. reflexivity.
      * cbn. now rewrite String.eqb_refl.
    + destruct (existsb (fun t => String.eqb (uri t) (uri v)) seen) eqn:E;
        cbn; rewrite ?Ev, IH, existsb_app; cbn; rewrite Ev, orb_false_r;
        reflexivity.
Qed.

Lemma keepNew_fixed rest : forall seen,
  NoDup (map uri rest) ->
  (forall s, In s rest -> existsb (fun t => String.eqb (uri t) (uri s)) seen = false) ->
  keepNew seen rest = rest.
Proof.
  induction rest as [| v rest IH]; intros seen Hnodup Hnew; [reflexivity |].
  cbn. rewrite (Hnew v) by now left. f_equal.
  inversion Hnodup as [| ? ? Hv Hrest]; subst.
  apply IH; [exact Hrest |].
  intros s Hs. rewrite existsb_app, (Hnew s) by now right. cbn.
  rewrite orb_false_r. apply String.eqb_neq. intros Heq.
  apply Hv. rewrite Heq. now apply in_map.
Qed.

End Citations.

(** X14: the citations carry each address once, at its first occurrence.
    [uniqueSources] returns sources of its input only, no two with the same
    [uri]; for every [uri] it holds the same source the input holds first
    under that [uri] (so no address is lost and the first title wins); and
    applying it twice changes nothing more. *)
Theorem uniqueSources_keeps_first_per_uri (sources : list Source) :
  NoDup (map uri (uniqueSources sources))
  /\ (forall s, In s (uniqueSources sources) -> In s sources)
  /\ (forall u,
         find (fun t => String.eqb (uri t) u) (uniqueSources sources)
         = find (fun t => String.eqb (uri t) u) sources)
  /\ uniqueSources (uniqueSources sources) = uniqueSources sources.
Proof.
  rewrite !uniqueSources_keepNew.
  split; [apply keepNew_NoDup | split; [| split]].
  - intros s Hs. now apply keepNew_In in Hs.
  - intros u. now rewrite keepNew_find.
  - apply keepNew_fixed; [apply keepNew_NoDup | reflexivity].
Qed.

Lemma uniqueSources_keeps_first_per_uri_witness :
  uniqueSources
    [{| title := "Apple"; uri := "https://apple.com/iphone" |};
     {| title := "Amazon"; uri := "https://amazon.com/dp/1" |};
     {| title := "Apple Store"; uri := "https://apple.com/iphone" |}]
  = [{| title := "Apple"; uri := "https://apple.com/iphone" |};
     {| title := "Amazon"; uri := "https://amazon.com/dp/1" |}]
  /\ In {| title := "Amazon"; uri := "https://amazon.com/dp/1" |}
       [{| title := "Apple"; uri := "https://apple.com/iphone" |};
        {| title := "Amazon"; uri := "https://amazon.com/dp/1" |};
        {| title := "Apple Store"; uri := "https://apple.com/iphone" |}].
Proof.
  split; [reflexivity |].
  apply (proj1 (proj2 (uniqueSources_keeps_first_per_uri _))).
  cbn. auto.
Defined.

Lemma groundingSources_from chunks : forall sources,
  fold_left
    (fun sources chunk =>
       match chunk with
       | Some web => (sources ++ [{| title := title web; uri := uri web |}])%list
       | None => sources
       end)
    chunks sources
  = (sources
     ++ flat_map (fun chunk : option Source =>
                    match chunk with Some web => [web] | None => [] end)
          chunks)%list.
Proof.
  induction chunks as [| chunk chunks IH]; intros sources; cbn.
  - now rewrite app_nil_r.
  - rewrite IH. destruct chunk as [[t u] |]; cbn; [| reflexivity].
    now rewrite <- app_assoc.
Qed.

(** X16: every web chunk is cited, once.  The citations returned for a list
    of grounding chunks contain, for every chunk that has a [web] part, one
    source with that address, and only sources taken from such chunks; chunks
    without a [web] part contribute nothing, and a response without a chunk
    list yields no citation. *)
Theorem citations_cover_web_chunks (chunks : list (option Source)) :
  citations None = []
  /\ (forall web,
         In (Some web) chunks ->
         exists s, In s (citations (Some chunks)) /\ uri s = uri web)
  /\ (forall s, In s (citations (Some chunks)) -> In (Some s) chunks)
  /\ NoDup (map uri (citations (Some chunks))).
Proof.
  unfold citations.
  assert (Hsources : forall s,
            In s (groundingSources (Some chunks)) <-> In (Some s) chunks).
  { intros s. cbn. rewrite groundingSources_from. cbn.
    rewrite in_flat_map. split.
    - intros ([w |] & Hin & Hs); [| contradiction].
      destruct Hs as [<- | []]. exact Hin.
    - intros Hin. exists (Some s). split; [exact Hin | now left]. }
  rewrite !uniqueSources_keepNew.
  split; [reflexivity | split; [| split]].
  - intros web Hweb. apply Hsources in Hweb.
    pose proof (keepNew_find (uri web) (groundingSources (Some chunks)) []) as Hfind.
    cbn [existsb] in Hfind.
    destruct (find (fun t => String.eqb (uri t) (uri web))
                (groundingSources (Some chunks))) as [s |] eqn:Hfound.
    + apply find_some in Hfind. destruct Hfind as [Hin Huri].
      exists s. split; [exact Hin | now apply String.eqb_eq].
    + exfalso. apply (find_none _ _ Hfound) in Hweb.
      now rewrite String.eqb_refl in Hweb.
  - intros s Hs. apply keepNew_In in Hs. now apply Hsources.
  - apply keepNew_NoDup.
Qed.

Lemma citations_cover_web_chunks_witness :
  In (Some {| title := "Apple Store"; uri := "https://apple.com/iphone" |})
    [Some {| title := "Apple"; uri := "https://apple.com/iphone" |}; None;
     Some {| title := "Apple Store"; uri := "https://apple.com/iphone" |}]
  /\ exists s,
       In s (citations
               (Some [Some {| title := "Apple"; uri := "https://apple.com/iphone" |};
                      None;
                      Some {| title := "Apple Store";
                              uri := "https://apple.com/iphone" |}]))
       /\ uri s = "https://apple.com/iphone".
Proof.
  assert (Hin : In (Some {| title := "Apple Store";
                            uri := "https://apple.com/iphone" |})
                  [Some {| title := "Apple"; uri := "https://apple.com/iphone" |};
                   None;
                   Some {| title := "Apple Store";
                           uri := "https://apple.com/iphone" |}])
    by (cbn; auto).
  split; [exact Hin |].
  exact (proj1 (proj2 (citations_cover_web_chunks _)) _ Hin).
Defined.

(** ** The countdown of the product page *)

(** X15: the countdown agrees with the engine's lock test.  For a lock
    recorded in the state with a non-empty holder and a non-zero expiry, the
    seconds shown are positive exactly while [isLocked] holds, so the page
    drops its lock at the first tick at which the engine would; and for a lock
    granted at [granted] and read no earlier than that, never more than 30
    seconds are shown. *)
Theorem countdown_matches_lock (st : DropState) (holder : string)
    (expiry now : Z) :
  activeViewerId st = Some holder ->
  holder <> "" ->
  activeViewExpiresAt st = Some expiry ->
  expiry <> 0%Z ->
  (0 <= remainingSeconds expiry now)%Z
  /\ ((0 < remainingSeconds expiry now)%Z <-> isLocked st now = true)
  /\ (remainingSeconds expiry now = 0%Z <-> isLocked st now = false)
  /\ (forall granted,
         expiry = (granted + LOCK_DURATION)%Z ->
         (granted <= now)%Z ->
         (remainingSeconds expiry now <= 30)%Z).
Proof.
  intros Hh Hne He Hz.
  assert (Hlock : isLocked st now = true <-> (now < expiry)%Z).
  { rewrite isLocked_iff. split.
    - intros (h & e & _ & _ & He' & _ & Hlt). congruence.
    - intros Hlt. now exists holder, expiry. }
  assert (Hpos : (0 < remainingSeconds expiry now)%Z <-> (now < expiry)%Z).
  { unfold remainingSeconds. split; intros H.
    - destruct (Z.lt_ge_cases now expiry) as [Hlt | Hge]; [exact Hlt | exfalso].
      assert (0 <= - (expiry - now) / 1000)%Z
        by (apply Z.div_pos; lia).
      lia.
    - assert (- (expiry - now) / 1000 < 0)%Z
        by (apply Z.div_lt_upper_bound; lia).
      lia. }
  assert (Hnonneg : (0 <= remainingSeconds expiry now)%Z)
    by (unfold remainingSeconds; lia).
  split; [exact Hnonneg | split; [now rewrite Hpos, Hlock | split]].
  - rewrite <- not_true_iff_false, Hlock, <- Hpos. lia.
  - intros granted -> Hge. unfold remainingSeconds, LOCK_DURATION.
    assert (-30 <= - (granted + 30000 - now) / 1000)%Z
      by (apply Z.div_le_lower_bound; lia).
    lia.
Qed.

Lemma countdown_matches_lock_witness :
  activeViewerId lockedExample = Some "viewer_1"
  /\ activeViewExpiresAt lockedExample = Some 31000%Z
  /\ remainingSeconds 31000 2000 = 29%Z
  /\ isLocked lockedExample 2000 = true
  /\ (remainingSeconds 31000 31000 = 0%Z <-> isLocked lockedExample 31000 = false).
Proof.
  assert (Hne : "viewer_1" <> "") by discriminate.
  assert (Hz : 31000%Z <> 0%Z) by discriminate.
  split; [reflexivity | split; [reflexivity | split; [reflexivity |]]].
  split; [reflexivity |].
  exact (proj1 (proj2 (proj2 (countdown_matches_lock lockedExample "viewer_1"
                                31000 31000 eq_refl Hne eq_refl Hz)))).
Defined.

(** ** Polling and the end of a drop *)

Lemma enqueue_twice q s : enqueue (enqueue q s) s = enqueue q s.
Proof. apply enqueue_present, enqueue_In. Qed.

(** X17: a waiting client may poll as often as it likes.  Once an actor was
    queued behind somebody else's unexpired lock, every further [applyView]
    by that actor while the lock is still unexpired returns [QUEUED] with
    the same position, charges nothing and leaves the state as the first
    call left it. *)
Theorem queued_polling_is_idempotent (config : DropConfig) (st : DropState)
    (actor : string) (now later : Z) :
  reachable config st ->
  isLocked st now = true ->
  activeViewerId st <> Some actor ->
  isLocked st later = true ->
  let first := applyView st config actor now in
  let again := applyView (state first) config actor later in
  status first = QUEUED
  /\ status again = QUEUED
  /\ state again = state first
  /\ queuePosition again = queuePosition first
  /\ feeCharged again = 0
  /\ In actor (queue (state first)).
Proof.
  intros Hr Hl Hv Hl'. cbv zeta.
  assert (Hs : isSold st = false) by now apply reachable_locked_unsold with config now.
  rewrite (applyView_behind_lock config actor now st Hs Hl Hv).
  cbn [state queuedResult status queuePosition].
  rewrite (applyView_behind_lock config actor later
             (withQueue st (enqueue (queue st) actor)) Hs Hl' Hv).
  cbn [state queuedResult status queuePosition feeCharged withQueue queue].
  rewrite enqueue_twice.
  repeat match goal with |- _ /\ _ => split end; try reflexivity.
  apply enqueue_In.
Qed.

Lemma queued_polling_is_idempotent_witness :
  isLocked lockedExample 2000 = true
  /\ activeViewerId lockedExample <> Some "viewer_2"
  /\ isLocked lockedExample 4000 = true
  /\ state (applyView queuedExample exampleConfig "viewer_2" 4000) = queuedExample
  /\ queuePosition (applyView queuedExample exampleConfig "viewer_2" 4000)
     = Some 1%Z.
Proof.
  assert (Hv : activeViewerId lockedExample <> Some "viewer_2")
    by (vm_compute; discriminate).
  destruct (queued_polling_is_idempotent exampleConfig lockedExample "viewer_2"
              2000 4000 lockedExample_reachable eq_refl Hv eq_refl)
    as (_ & _ & Hstate & Hpos & _).
  split; [reflexivity | split; [exact Hv | split; [reflexivity |]]].
  split; [exact Hstate | exact Hpos].
Defined.

Lemma step_on_sold config st op :
  reachable config st -> isSold st = true -> step config st op = st.
Proof.
  intros Hr Hs. destruct op as [viewerId now | viewerId | buyer now]; cbn [step].
  - now apply applyView_sold.
  - unfold releaseLock.
    destruct (reachable_soldCleared _ _ Hr Hs) as (-> & _). reflexivity.
  - unfold applyPurchase. now rewrite Hs.
Qed.

(** X18: a sold product stays sold behind the API.  Once the state stored
    for a product is sold, no request other than [resetDb] changes the state
    stored for it: later [postView] calls answer [SOLD], later [postBuy]
    calls fail with the already-sold message, and [getStatus] keeps
    returning the same sold state. *)
Theorem sold_product_stays_sold (productsData : list DropConfig) (s : Store)
    (pid : string) (st : DropState) (req : Request) :
  served productsData s ->
  JSMap.get (db s) pid = Some st ->
  isSold st = true ->
  req <> ResetDb ->
  JSMap.get (db (serve productsData s req)) pid = Some st
  /\ (forall viewerId now,
         exists r,
           fst (postView s pid viewerId now) = Returned r
           /\ status r = SOLD /\ success r = false /\ feeCharged r = 0)
  /\ (forall buyerId now,
         exists r,
           fst (postBuy s pid buyerId now) = Returned r
           /\ p_success r = false
           /\ p_error r = Some "Product is already sold.").
Proof.
  intros Hs Hst Hsold Hreq.
  destruct (served_invariant productsData s Hs) as (_ & _ & Hstates).
  destruct (Hstates pid st Hst) as (config & Hc & Hr).
  split; [| split].
  - destruct req as [pid' | pid' v now | pid' v | pid' b now |];
      cbn [serve]; [exact Hst | | | | contradiction].
    + unfold postView.
      destruct (string_dec pid' pid) as [-> | Hne].
      * rewrite Hst, Hc. cbn [snd db].
        rewrite get_set_same. f_equal.
        exact (step_on_sold config st (View v now) Hr Hsold).
      * destruct (JSMap.get (db s) pid'); [| exact Hst].
        destruct (JSMap.get (configs s) pid'); [| exact Hst].
        cbn [snd db]. now rewrite get_set_other.
    + unfold postCancel.
      destruct (string_dec pid' pid) as [-> | Hne].
      * rewrite Hst. cbn [snd db]. rewrite get_set_same. f_equal.
        exact (step_on_sold config st (Release v) Hr Hsold).
      * destruct (JSMap.get (db s) pid'); [| exact Hst].
        cbn [snd db]. now rewrite get_set_other.
    + unfold postBuy.
      destruct (string_dec pid' pid) as [-> | Hne].
      * rewrite Hst, Hc. cbn [snd].
        destruct (p_success _); [| exact Hst].
        cbn [db]. rewrite get_set_same. f_equal.
        exact (step_on_sold config st (Purchase b now) Hr Hsold).
      * destruct (JSMap.get (db s) pid'); [| exact Hst].
        destruct (JSMap.get (configs s) pid'); [| exact Hst].
        cbn [snd]. destruct (p_success _); [| exact Hst].
        cbn [db]. now rewrite get_set_other.
  - intros viewerId now. unfold postView. rewrite Hst, Hc. cbn [fst].
    eexists. split; [reflexivity |].
    unfold applyView. rewrite Hsold. cbn. auto.
  - intros buyerId now. unfold postBuy. rewrite Hst, Hc. cbn [fst].
    eexists. split; [reflexivity |].
    unfold applyPurchase. rewrite Hsold. cbn. auto.
Qed.

Lemma soldStore_served :
  served exampleCatalogue
    (serve exampleCatalogue viewedStore (PostBuy "iphone17" "viewer_1" 2000)).
Proof.
  exact (served_step exampleCatalogue viewedStore
           (PostBuy "iphone17" "viewer_1" 2000) viewedStore_served).
Defined.

Lemma sold_product_stays_sold_witness :
  JSMap.get
    (db (serve exampleCatalogue viewedStore (PostBuy "iphone17" "viewer_1" 2000)))
    "iphone17" = Some soldExample
  /\ isSold soldExample = true
  /\ PostView "iphone17" "viewer_2" 50000 <> ResetDb
  /\ JSMap.get
       (db (serve exampleCatalogue
              (serve exampleCatalogue viewedStore
                 (PostBuy "iphone17" "viewer_1" 2000))
              (PostView "iphone17" "viewer_2" 50000)))
       "iphone17" = Some soldExample.
Proof.
  assert (Hreq : PostView "iphone17" "viewer_2" 50000 <> ResetDb) by discriminate.
  split; [reflexivity | split; [reflexivity | split; [exact Hreq |]]].
  exact (proj1 (sold_product_stays_sold exampleCatalogue _ "iphone17" soldExample
                  (PostView "iphone17" "viewer_2" 50000)
                  soldStore_served eq_refl eq_refl Hreq)).
Defined.

(** ** The decisive amounts on binary64 numbers *)

Module Binary64Facts.

Import Binary64.

(** The first view of the example: 1096.00, and the shares 1.00, 0.25, 0.75;
    the settlement of the example pays the supplier 1096.25. *)
Lemma example_first_view :
  nextPrice (roundMoney 1100) 5 0.8 1000 = 1096%float
  /\ roundMoney (5 * 0.2) = 1%float
  /\ roundMoney (roundMoney (5 * 0.2) * 0.25) = 0.25%float
  /\ roundMoney (roundMoney (5 * 0.2) * 0.75) = 0.75%float
  /\ roundMoney (1096 + 0.25) = 1096.25%float.
Proof. vm_compute. repeat split. Qed.

(** A floor of 1097.004 is undercut by the first view. *)
Lemma floor_undercut :
  (nextPrice (roundMoney 1100) 5 0.8 1097.004 <? 1097.004)%float = true.
Proof. vm_compute. reflexivity. Qed.

(** A base price of 1099.996 is exceeded by the initial price. *)
Lemma base_exceeded : (1099.996 <? roundMoney 1099.996)%float = true.
Proof. vm_compute. reflexivity. Qed.

(** A negative fee raises the price. *)
Lemma negative_fee_raises :
  (roundMoney 1100 <? nextPrice (roundMoney 1100) (-5) 0.8 1000)%float = true.
Proof. vm_compute. reflexivity. Qed.

(** A base price of 999.996 starts at the floor of 1000, not below it. *)
Lemma base_rounds_up_to_floor : (roundMoney 999.996 <? 1000)%float = false.
Proof. vm_compute. reflexivity. Qed.

End Binary64Facts.
